(** * Signaling client: message protocol and connection manager

    A shallow embedding of [SignalingProtocol.cpp] and [SignalingClient.cpp]
    and the properties of their message codec, validation, ownership of the
    payload tree, send path, connection state and inbound dispatch.

    Conventions of the embedding.
    - [std::string] is [string]; a [const char*] is the same type read as a
      C string, and [c_str] is the view [std::string::c_str()] gives a C
      API: the characters before the first NUL.
    - A [cJSON*] that owns a tree is a location of a heap of trees; a null
      pointer is [None]. [cJSON_Duplicate] allocates a fresh location,
      [cJSON_Delete] frees one. Items reached through
      [cJSON_GetObjectItemCaseSensitive] are borrowed sub-trees, used as
      values.
    - A C++ exception is a value of [exception]; a function that may throw
      returns an [outcome].
    - The JSON library (cJSON) and the transport library (libwebsockets)
      are interfaces ([cJSON_library], [libwebsockets]): their code is not
      part of this program. *)

From Stdlib Require Import ZArith String Ascii List.
From Stdlib Require Import Uint63 Floats.PrimFloat.
From stdpp Require Import gmap strings list fin_maps.

#[local] Set Warnings "-register-all".
#[local] Open Scope string_scope.

(** ** C strings *)

(** [s.c_str()] handed to a C API: the characters before the first NUL. *)
Fixpoint c_str (s : string) : string :=
  match s with
  | EmptyString => EmptyString
  | String c s' => if Ascii.eqb c Ascii.zero then EmptyString else String c (c_str s')
  end.

Definition newline : string := String (ascii_of_nat 10) EmptyString.

(** A string a C API sees whole. *)
Definition NUL_free (s : string) : Prop := c_str s = s.

(** ** Exceptions *)

(** The two standard exception classes the code throws, both derived from
    [std::exception], and any exception that is not. *)
Inductive exception : Type :=
| runtime_error (what : string)
| invalid_argument (what : string)
| foreign_exception (tag : string).

(** [catch (const std::exception& e)] matches, and [e.what()] is: *)
Definition std_exception_what (e : exception) : option string :=
  match e with
  | runtime_error w => Some w
  | invalid_argument w => Some w
  | foreign_exception _ => None
  end.

Inductive outcome (A : Type) : Type :=
| Ok (a : A)
| Throw (e : exception).
Arguments Ok {A} a.
Arguments Throw {A} e.

Definition throws {A} (o : outcome A) : Prop := ∃ e, o = Throw e.

(** ** cJSON trees *)

(** The tree behind a [cJSON*], by the item's [type] tag. A number keeps its
    [valuedouble]; an object member carries its name ([item->string]). *)
Inductive cJSON : Type :=
| cJSON_False
| cJSON_True
| cJSON_NULL
| cJSON_Number (valuedouble : float)
| cJSON_String (valuestring : string)
| cJSON_Array (items : list cJSON)
| cJSON_Object (members : list (string * cJSON))
| cJSON_Raw (valuestring : string).

Definition cJSON_IsString (item : option cJSON) : bool :=
  match item with
  | Some (cJSON_String _) => true
  | _ => false
  end.

Definition cJSON_IsObject (item : option cJSON) : bool :=
  match item with
  | Some (cJSON_Object _) => true
  | _ => false
  end.

(** The first member whose name is [name]; the walk over the children stops
    at the first match. *)
Fixpoint get_object_item (members : list (string * cJSON)) (name : string) : option cJSON :=
  match members with
  | [] => None
  | (k, v) :: rest => if String.eqb name k then Some v else get_object_item rest name
  end.

(** [cJSON_GetObjectItemCaseSensitive(object, name)]: only an object has
    named children; on every other item the result is NULL. *)
Definition cJSON_GetObjectItemCaseSensitive (object : cJSON) (name : string) : option cJSON :=
  match object with
  | cJSON_Object members => get_object_item members name
  | _ => None
  end.

(** The interface of the JSON library used by the codec. [cJSON_Print]
    returns NULL ([None]) when it cannot print; [cJSON_Parse] returns NULL
    on text it rejects, and [cJSON_GetErrorPtr] is what the library then
    reports for that text. *)
Class cJSON_library : Type := {
  cJSON_Print : cJSON → option string;
  cJSON_Parse : string → option cJSON;
  cJSON_GetErrorPtr : string → option string
}.

(** ** The heap of owned trees *)

Definition loc : Type := positive.

(** [cJSON_Duplicate(item, recurse)] of a borrowed item: a fresh tree. With
    [recurse = 0] the copy has no children. *)
Definition shallow (item : cJSON) : cJSON :=
  match item with
  | cJSON_Array _ => cJSON_Array []
  | cJSON_Object _ => cJSON_Object []
  | other => other
  end.

Definition cJSON_Duplicate_item (item : cJSON) (recurse : bool) (h : gmap loc cJSON)
  : loc * gmap loc cJSON :=
  let q := fresh (dom h) in
  (q, <[q := if recurse then item else shallow item]> h).

(** [cJSON_Duplicate(p, recurse)] of a pointer. NULL gives NULL; a pointer to
    a freed tree has no defined behaviour in C and is read here as a failed
    duplicate (NULL). *)
Definition cJSON_Duplicate (p : option loc) (recurse : bool) (h : gmap loc cJSON)
  : option loc * gmap loc cJSON :=
  match p with
  | None => (None, h)
  | Some l =>
      match h !! l with
      | Some item => let '(q, h') := cJSON_Duplicate_item item recurse h in (Some q, h')
      | None => (None, h)
      end
  end.

(** [cJSON_Delete(p)]: frees the whole tree. *)
Definition cJSON_Delete (p : loc) (h : gmap loc cJSON) : gmap loc cJSON := delete p h.

(** ** SignalingProtocol *)

(** Modelled from the spec: the enumeration [SignalingMessageType] of
    [SignalingProtocol.h], whose declaration is not among the sources; the
    fourteen tags are those of the two conversion functions. *)
Inductive SignalingMessageType : Type :=
| REGISTER | REQUEST | RESPONSE | OFFER | ANSWER | ICE | HEARTBEAT | ERROR
| DISCONNECT | STATUS | CONFIG_UPDATE | STREAM_INFO | LOG | DIAGNOSTICS.

Definition signalingMessageTypeToString (type : SignalingMessageType) : string :=
  match type with
  | REGISTER => "REGISTER"
  | REQUEST => "REQUEST"
  | RESPONSE => "RESPONSE"
  | OFFER => "OFFER"
  | ANSWER => "ANSWER"
  | ICE => "ICE"
  | HEARTBEAT => "HEARTBEAT"
  | ERROR => "ERROR"
  | DISCONNECT => "DISCONNECT"
  | STATUS => "STATUS"
  | CONFIG_UPDATE => "CONFIG_UPDATE"
  | STREAM_INFO => "STREAM_INFO"
  | LOG => "LOG"
  | DIAGNOSTICS => "DIAGNOSTICS"
  end.

Definition stringToSignalingMessageType (typeStr : string) : outcome SignalingMessageType :=
  if String.eqb typeStr "REGISTER" then Ok REGISTER
  else if String.eqb typeStr "REQUEST" then Ok REQUEST
  else if String.eqb typeStr "RESPONSE" then Ok RESPONSE
  else if String.eqb typeStr "OFFER" then Ok OFFER
  else if String.eqb typeStr "ANSWER" then Ok ANSWER
  else if String.eqb typeStr "ICE" then Ok ICE
  else if String.eqb typeStr "HEARTBEAT" then Ok HEARTBEAT
  else if String.eqb typeStr "ERROR" then Ok ERROR
  else if String.eqb typeStr "DISCONNECT" then Ok DISCONNECT
  else if String.eqb typeStr "STATUS" then Ok STATUS
  else if String.eqb typeStr "CONFIG_UPDATE" then Ok CONFIG_UPDATE
  else if String.eqb typeStr "STREAM_INFO" then Ok STREAM_INFO
  else if String.eqb typeStr "LOG" then Ok LOG
  else if String.eqb typeStr "DIAGNOSTICS" then Ok DIAGNOSTICS
  else Throw (invalid_argument ("Unknown message type: " +:+ typeStr)).

(** Modelled from the spec: the data members of [class SignalingMessage]
    ([SignalingProtocol.h] is not among the sources): the tag, the id, the
    owning pointer to the payload tree, and the metadata mapping of string
    keys to string values with unique keys. *)
Record SignalingMessage : Type := {
  type : SignalingMessageType;
  id : string;
  payload : option loc;
  metadata : gmap string string
}.

(** The tree the message's payload pointer leads to. *)
Definition payload_tree (h : gmap loc cJSON) (m : SignalingMessage) : option cJSON :=
  match payload m with
  | Some p => h !! p
  | None => None
  end.

(** The class invariant on the pointer: null, or a live tree. *)
Definition owns_payload (h : gmap loc cJSON) (m : SignalingMessage) : Prop :=
  ∀ p, payload m = Some p → is_Some (h !! p).

(** [SignalingMessage()] and [SignalingMessage(msgType, msgId)]. *)
Definition SignalingMessage_default : SignalingMessage :=
  {| type := REGISTER; id := ""; payload := None; metadata := ∅ |}.

Definition SignalingMessage_new (msgType : SignalingMessageType) (msgId : string)
  : SignalingMessage :=
  {| type := msgType; id := msgId; payload := None; metadata := ∅ |}.

(** [~SignalingMessage()]. *)
Definition SignalingMessage_destroy (m : SignalingMessage) (h : gmap loc cJSON)
  : gmap loc cJSON :=
  match payload m with
  | Some p => cJSON_Delete p h
  | None => h
  end.

(** Copy constructor: the members are copied, the payload is duplicated. *)
Definition SignalingMessage_copy (other : SignalingMessage) (h : gmap loc cJSON)
  : SignalingMessage * gmap loc cJSON :=
  let '(q, h') := cJSON_Duplicate (payload other) true h in
  ({| type := type other; id := id other; payload := q; metadata := metadata other |}, h').

(** Move constructor: returns the new object and the moved-from [other].
    The pointer is handed over and [other.payload] is nulled. A moved-from
    [std::string] and map are left valid but unspecified; they are read here
    as empty, and no property below depends on that. *)
Definition SignalingMessage_move (other : SignalingMessage)
  : SignalingMessage * SignalingMessage :=
  ({| type := type other; id := id other; payload := payload other;
      metadata := metadata other |},
   {| type := type other; id := ""; payload := None; metadata := ∅ |}).

(** Setters and getters. *)
Definition setType (newType : SignalingMessageType) (m : SignalingMessage) : SignalingMessage :=
  {| type := newType; id := id m; payload := payload m; metadata := metadata m |}.

Definition setId (newId : string) (m : SignalingMessage) : SignalingMessage :=
  {| type := type m; id := newId; payload := payload m; metadata := metadata m |}.

Definition setPayload (newPayload : option loc) (m : SignalingMessage) (h : gmap loc cJSON)
  : SignalingMessage * gmap loc cJSON :=
  let h1 := match payload m with
            | Some old => cJSON_Delete old h
            | None => h
            end in
  let '(q, h2) := cJSON_Duplicate newPayload true h1 in
  ({| type := type m; id := id m; payload := q; metadata := metadata m |}, h2).

Definition addMetadata (key value : string) (m : SignalingMessage) : SignalingMessage :=
  {| type := type m; id := id m; payload := payload m;
     metadata := <[key := value]> (metadata m) |}.

Definition getType (m : SignalingMessage) : SignalingMessageType := type m.
Definition getId (m : SignalingMessage) : string := id m.

Definition getPayload (m : SignalingMessage) (h : gmap loc cJSON)
  : option loc * gmap loc cJSON :=
  cJSON_Duplicate (payload m) true h.

Definition getMetadata (key : string) (m : SignalingMessage) : string :=
  match metadata m !! key with
  | Some v => v
  | None => ""
  end.

(** *** Assignment operators

    Assignment compares the addresses of the two objects ([this != &other]),
    so the objects live in a store indexed by address. *)

Definition addr : Type := positive.

(** Copy assignment. *)
Definition SignalingMessage_copy_assign (this other : addr)
    (objs : gmap addr SignalingMessage) (h : gmap loc cJSON)
  : gmap addr SignalingMessage * gmap loc cJSON :=
  if decide (this = other) then (objs, h)
  else
    match objs !! this, objs !! other with
    | Some d, Some o =>
        let h1 := match payload d with
                  | Some old => cJSON_Delete old h
                  | None => h
                  end in
        let '(q, h2) := cJSON_Duplicate (payload o) true h1 in
        (<[this := {| type := type o; id := id o; payload := q; metadata := metadata o |}]> objs,
         h2)
    | _, _ => (objs, h)
    end.

(** Move assignment. *)
Definition SignalingMessage_move_assign (this other : addr)
    (objs : gmap addr SignalingMessage) (h : gmap loc cJSON)
  : gmap addr SignalingMessage * gmap loc cJSON :=
  if decide (this = other) then (objs, h)
  else
    match objs !! this, objs !! other with
    | Some d, Some o =>
        let h1 := match payload d with
                  | Some old => cJSON_Delete old h
                  | None => h
                  end in
        let '(new, moved_from) := SignalingMessage_move o in
        (<[other := moved_from]> (<[this := new]> objs), h1)
    | _, _ => (objs, h)
    end.

(** *** Validation *)

(** [cJSON_GetObjectItemCaseSensitive(payload, name)] through the owning
    pointer. *)
Definition payload_item (h : gmap loc cJSON) (p : loc) (name : string) : option cJSON :=
  match h !! p with
  | Some t => cJSON_GetObjectItemCaseSensitive t name
  | None => None
  end.

Definition non_null (p : option loc) : bool :=
  match p with
  | Some _ => true
  | None => false
  end.

Definition empty (s : string) : bool :=
  match s with
  | EmptyString => true
  | String _ _ => false
  end.

Definition validate (h : gmap loc cJSON) (m : SignalingMessage) : bool :=
  if empty (id m) then false
  else
    match type m with
    | REGISTER => non_null (payload m)
    | REQUEST => non_null (payload m)
    | OFFER | ANSWER =>
        match payload m with
        | None => false
        | Some p => cJSON_IsString (payload_item h p "sdp")
        end
    | ICE =>
        match payload m with
        | None => false
        | Some p => cJSON_IsString (payload_item h p "candidate")
        end
    | HEARTBEAT => true
    | ERROR => non_null (payload m)
    | _ => true
    end.

(** *** Serialization *)

(** The members [serialize] adds for the metadata, one string item per
    entry of the map. *)
Definition metadata_members (md : gmap string string) : list (string * cJSON) :=
  (λ kv, (c_str kv.1, cJSON_String (c_str kv.2))) <$> map_to_list md.

(** The [root] object [serialize] builds before printing it. The duplicate
    of the payload is added under ["payload"]; when the duplicate is NULL
    nothing is added. *)
Definition wire_object (h : gmap loc cJSON) (m : SignalingMessage) : cJSON :=
  cJSON_Object
    ([("type", cJSON_String (c_str (signalingMessageTypeToString (type m))));
      ("id", cJSON_String (c_str (id m)))]
     ++ match payload_tree h m with
        | Some t => [("payload", t)]
        | None => []
        end
     ++ (if decide (metadata m = ∅) then []
         else [("metadata", cJSON_Object (metadata_members (metadata m)))])).

(** [root] and the duplicate inside it are freed on every path, so the heap
    is the same before and after: [serialize] is a function of the heap. *)
Definition serialize `{cJSON_library} (h : gmap loc cJSON) (m : SignalingMessage)
  : outcome string :=
  match cJSON_Print (wire_object h m) with
  | None => Throw (runtime_error "Failed to convert JSON to string")
  | Some jsonStr => Ok jsonStr
  end.

(** *** Deserialization *)

(** The loop over the children of the ["metadata"] object. *)
Definition read_metadata (members : list (string * cJSON)) (msg : SignalingMessage)
  : SignalingMessage :=
  foldl (λ acc kv,
           match kv.2 with
           | cJSON_String valuestring => addMetadata kv.1 valuestring acc
           | _ => acc
           end) msg members.

(** The body of the [try] block, on the parsed [root]. [setPayload] is given
    a duplicate and duplicates it again; the first duplicate is never freed
    and stays in the heap. *)
Definition deserialize_root (root : cJSON) (h : gmap loc cJSON)
  : outcome SignalingMessage * gmap loc cJSON :=
  let msg := SignalingMessage_default in
  match cJSON_GetObjectItemCaseSensitive root "type" with
  | Some (cJSON_String typeStr) =>
      match stringToSignalingMessageType typeStr with
      | Throw e => (Throw e, h)
      | Ok t =>
          let msg := setType t msg in
          match cJSON_GetObjectItemCaseSensitive root "id" with
          | Some (cJSON_String idStr) =>
              let msg := setId idStr msg in
              let '(msg, h) :=
                match cJSON_GetObjectItemCaseSensitive root "payload" with
                | Some payloadJson =>
                    let '(tmp, h1) := cJSON_Duplicate_item payloadJson true h in
                    setPayload (Some tmp) msg h1
                | None => (msg, h)
                end in
              let msg :=
                match cJSON_GetObjectItemCaseSensitive root "metadata" with
                | Some (cJSON_Object members) => read_metadata members msg
                | _ => msg
                end in
              (Ok msg, h)
          | _ => (Throw (invalid_argument "Missing or invalid message ID"), h)
          end
      end
  | _ => (Throw (invalid_argument "Missing or invalid message type"), h)
  end.

Definition deserialize `{cJSON_library} (jsonStr : string) (h : gmap loc cJSON)
  : outcome SignalingMessage * gmap loc cJSON :=
  match cJSON_Parse (c_str jsonStr) with
  | None =>
      (Throw (runtime_error
                (match cJSON_GetErrorPtr (c_str jsonStr) with
                 | Some error => error
                 | None => "Failed to parse JSON"
                 end)), h)
  | Some root => deserialize_root root h
  end.

(** ** SignalingClient *)

(** A connection handle ([struct lws*]). *)
Definition lws : Type := positive.

(** The interface of the transport library. [lws_net] is the state of the
    library and of the network behind it; [lws_write] answers with the [int]
    it returns, [lws_client_connect_via_info] with the connection or NULL. *)
Class libwebsockets : Type := {
  lws_net : Type;
  lws_write : lws_net → option lws → string → Z * lws_net;
  lws_client_connect_via_info : lws_net → string → option lws * lws_net
}.

(** [size_t] is 64 bits wide (LP64); an [int] compared with a [size_t] is
    first converted to [size_t], modulo [2 ^ 64]. *)
Definition size_t_bits : Z := 64.
Definition int_to_size_t (n : Z) : Z := n mod 2 ^ size_t_bits.

(** [n < len] for [int n] and [size_t len]. *)
Definition int_lt_size_t (n : Z) (len : nat) : bool :=
  (int_to_size_t n <? Z.of_nat len)%Z.

Inductive lws_callback_reasons : Type :=
| LWS_CALLBACK_CLIENT_ESTABLISHED
| LWS_CALLBACK_CLIENT_RECEIVE
| LWS_CALLBACK_CLIENT_CLOSED
| LWS_CALLBACK_CLIENT_CONNECTION_ERROR
| LWS_CALLBACK_other.

Section Client.
Context `{JSON : cJSON_library} `{WS : libwebsockets}.

(** The state of the code registered as handler. *)
Variable App : Type.

(** [std::function<void(const SignalingMessage&)>]: the handler reads the
    message (and the tree behind it), changes its own state, and returns
    or throws. What a handler does to the heap or to the transport is not
    part of this type: the properties of the dispatch are about what the
    handler is given and about what the dispatch does around the call. *)
Definition MessageCallback : Type :=
  gmap loc cJSON → SignalingMessage → App → option exception * App.

(** What the client acts on outside its own members: the heap, the
    transport with the frames handed to [lws_write] so far, the two output
    streams and the handler's state. *)
Record world : Type := {
  heap : gmap loc cJSON;
  net : lws_net;
  frames : list string;
  stderr : list string;
  stdout : list string;
  app : App
}.

Record SignalingClient : Type := {
  serverUrl : string;
  wsi : option lws;
  connected : bool;
  running : bool;
  incomingMessages : list SignalingMessage;
  messageCallback : option MessageCallback
}.

Definition with_heap (h : gmap loc cJSON) (w : world) : world :=
  {| heap := h; net := net w; frames := frames w; stderr := stderr w;
     stdout := stdout w; app := app w |}.

Definition with_app (a : App) (w : world) : world :=
  {| heap := heap w; net := net w; frames := frames w; stderr := stderr w;
     stdout := stdout w; app := a |}.

Definition with_net (n : lws_net) (w : world) : world :=
  {| heap := heap w; net := n; frames := frames w; stderr := stderr w;
     stdout := stdout w; app := app w |}.

Definition written (buf : string) (n : lws_net) (w : world) : world :=
  {| heap := heap w; net := n; frames := frames w ++ [buf]; stderr := stderr w;
     stdout := stdout w; app := app w |}.

Definition fprintf_stderr (line : string) (w : world) : world :=
  {| heap := heap w; net := net w; frames := frames w; stderr := stderr w ++ [line];
     stdout := stdout w; app := app w |}.

Definition printf (line : string) (w : world) : world :=
  {| heap := heap w; net := net w; frames := frames w; stderr := stderr w;
     stdout := stdout w ++ [line]; app := app w |}.

Definition set_connection (conn : option lws) (b : bool) (c : SignalingClient)
  : SignalingClient :=
  {| serverUrl := serverUrl c; wsi := conn; connected := b; running := running c;
     incomingMessages := incomingMessages c; messageCallback := messageCallback c |}.

Definition set_connected (b : bool) (c : SignalingClient) : SignalingClient :=
  set_connection (wsi c) b c.

Definition push_incoming (m : SignalingMessage) (c : SignalingClient) : SignalingClient :=
  {| serverUrl := serverUrl c; wsi := wsi c; connected := connected c;
     running := running c; incomingMessages := incomingMessages c ++ [m];
     messageCallback := messageCallback c |}.

(** [connect()]. The library stores the connection in [wsi] through
    [ccinfo.pwsi]. *)
Definition connect (c : SignalingClient) (w : world) : bool * SignalingClient * world :=
  if connected c then (true, c, w)
  else
    let '(connection, n) := lws_client_connect_via_info (net w) (c_str (serverUrl c)) in
    match connection with
    | None => (false, set_connection None false c, with_net n w)
    | Some _ => (true, set_connection connection true c, with_net n w)
    end.

Definition isConnected (c : SignalingClient) : bool := connected c.

(** [sendMessage(message)]. The buffer handed to [lws_write] holds the
    [length()] bytes of the serialized message. *)
Definition sendMessage (c : SignalingClient) (message : SignalingMessage) (w : world)
  : outcome unit * world :=
  if negb (connected c) then
    (Throw (runtime_error "Not connected to signaling server"), w)
  else
    match serialize (heap w) message with
    | Throw e => (Throw e, w)
    | Ok serializedMsg =>
        let '(n, net') := lws_write (net w) (wsi c) serializedMsg in
        let w' := written serializedMsg net' w in
        if int_lt_size_t n (String.length serializedMsg) then
          (Throw (runtime_error "Failed to send complete message"), w')
        else (Ok tt, w')
    end.

(** [setMessageCallback(callback)]; an empty [std::function] is [None]. *)
Definition setMessageCallback (callback : option MessageCallback) (c : SignalingClient)
  : SignalingClient :=
  {| serverUrl := serverUrl c; wsi := wsi c; connected := connected c;
     running := running c; incomingMessages := incomingMessages c;
     messageCallback := callback |}.

(** The [catch (const std::exception& e)] clause of
    [processIncomingMessage]: an exception of another kind leaves the
    function. *)
Definition catch_std_exception (e : exception) (w : world) : outcome unit * world :=
  match std_exception_what e with
  | Some what =>
      (Ok tt, fprintf_stderr ("Message deserialization error: " +:+ what +:+ newline) w)
  | None => (Throw e, w)
  end.

(** [processIncomingMessage(data, len)], on the [len] bytes at [data]. The
    local [message] is destroyed when the [try] block is left, also by an
    exception of the handler; [incomingMessages.push(message)] stores a
    copy. *)
Definition processIncomingMessage (c : SignalingClient) (data : string) (w : world)
  : outcome unit * SignalingClient * world :=
  match deserialize data (heap w) with
  | (Throw e, h1) =>
      let '(r, w') := catch_std_exception e (with_heap h1 w) in (r, c, w')
  | (Ok message, h1) =>
      match messageCallback c with
      | Some callback =>
          let '(thrown, a) := callback h1 message (app w) in
          let w1 := with_app a (with_heap (SignalingMessage_destroy message h1) w) in
          match thrown with
          | None => (Ok tt, c, w1)
          | Some e => let '(r, w') := catch_std_exception e w1 in (r, c, w')
          end
      | None =>
          let '(copy, h2) := SignalingMessage_copy message h1 in
          (Ok tt, push_incoming copy c,
           with_heap (SignalingMessage_destroy message h2) w)
      end
  end.

(** [callback_signaling], from the point where [client] is known:
    [client] is the object behind the pointer [lws_context_user] returns,
    and the result is the [int] handed back to the library. The pointer
    is the [user] field of the [lws_context_creation_info] the context
    was created with, a field the constructor of this file leaves zero;
    a call with a NULL pointer is not described. *)
Definition callback_signaling (client : SignalingClient) (reason : lws_callback_reasons)
    (data : string) (w : world) : outcome Z * SignalingClient * world :=
  match reason with
  | LWS_CALLBACK_CLIENT_ESTABLISHED =>
      (Ok 0%Z, set_connected true client, printf ("WebSocket connection established" +:+ newline) w)
  | LWS_CALLBACK_CLIENT_RECEIVE =>
      match processIncomingMessage client data w with
      | (Ok _, c', w') => (Ok 0%Z, c', w')
      | (Throw e, c', w') => (Throw e, c', w')
      end
  | LWS_CALLBACK_CLIENT_CLOSED =>
      (Ok 0%Z, set_connected false client, printf ("WebSocket connection closed" +:+ newline) w)
  | LWS_CALLBACK_CLIENT_CONNECTION_ERROR =>
      (Ok 0%Z, set_connected false client, printf ("WebSocket connection error" +:+ newline) w)
  | LWS_CALLBACK_other => (Ok 0%Z, client, w)
  end.

End Client.

Arguments heap {WS App} w.
Arguments net {WS App} w.
Arguments frames {WS App} w.
Arguments stderr {WS App} w.
Arguments stdout {WS App} w.
Arguments app {WS App} w.
Arguments serverUrl {App} s.
Arguments wsi {App} s.
Arguments connected {App} s.
Arguments running {App} s.
Arguments incomingMessages {App} s.
Arguments messageCallback {App} s.
Arguments with_heap {WS App} h w.
Arguments with_app {WS App} a w.
Arguments with_net {WS App} n w.
Arguments written {WS App} buf n w.
Arguments fprintf_stderr {WS App} line w.
Arguments printf {WS App} line w.
Arguments set_connection {App} conn b c.
Arguments set_connected {App} b c.
Arguments push_incoming {App} m c.
Arguments connect {WS App} c w.
Arguments isConnected {App} c.
Arguments sendMessage {JSON WS App} c message w.
Arguments setMessageCallback {App} callback c.
Arguments catch_std_exception {WS App} e w.
Arguments processIncomingMessage {JSON WS App} c data w.
Arguments callback_signaling {JSON WS App} client reason data w.

(** ** A reference JSON library

    An executable instance of [cJSON_library] for a fragment of JSON: it
    prints without white space, escapes the quote and the backslash, and
    prints a number only when it is an integer of at most 53 bits. It is used
    to run the codec on concrete messages. *)

Module RefJSON.

Definition quote : ascii := ascii_of_nat 34.
Definition backslash : ascii := ascii_of_nat 92.

Fixpoint escape (s : string) : string :=
  match s with
  | EmptyString => EmptyString
  | String c s' =>
      if (Ascii.eqb c quote || Ascii.eqb c backslash)%bool
      then String backslash (String c (escape s'))
      else String c (escape s')
  end.

Definition print_string (s : string) : string :=
  String quote (escape s) +:+ String quote EmptyString.

(** The integer a double holds, when it holds one below [2 ^ 53]. *)
Definition integer_of_double (d : float) : option Z :=
  let z := Uint63.to_Z (PrimFloat.normfr_mantissa (fst (PrimFloat.frshiftexp (PrimFloat.abs d)))) in
  let e := (Uint63.to_Z (snd (PrimFloat.frshiftexp (PrimFloat.abs d))) - 2101 - 53)%Z in
  let n := if (0 <=? e)%Z then (z * 2 ^ e)%Z else (z / 2 ^ (- e))%Z in
  if ((n <? 2 ^ 53)%Z && PrimFloat.Leibniz.eqb (PrimFloat.of_uint63 (Uint63.of_Z n)) (PrimFloat.abs d))%bool
  then Some (if PrimFloat.ltb d PrimFloat.zero then (- n)%Z else n)
  else None.

Fixpoint print_digits (fuel : nat) (n : Z) (acc : string) : string :=
  match fuel with
  | O => acc
  | S fuel' =>
      let acc' := String (ascii_of_nat (48 + Z.to_nat (n mod 10))) acc in
      if (n <? 10)%Z then acc' else print_digits fuel' (n / 10) acc'
  end.

Definition print_integer (n : Z) : string :=
  if (n <? 0)%Z then String "-"%char (print_digits 20 (- n) EmptyString)
  else print_digits 20 n EmptyString.

Fixpoint print (t : cJSON) : option string :=
  match t with
  | cJSON_False => Some "false"
  | cJSON_True => Some "true"
  | cJSON_NULL => Some "null"
  | cJSON_Number d => print_integer <$> integer_of_double d
  | cJSON_String s => Some (print_string s)
  | cJSON_Raw s => Some s
  | cJSON_Array items =>
      let fix go (l : list cJSON) : option string :=
        match l with
        | [] => Some EmptyString
        | [x] => print x
        | x :: rest =>
            match print x, go rest with
            | Some a, Some b => Some (a +:+ "," +:+ b)
            | _, _ => None
            end
        end in
      (λ body, "[" +:+ body +:+ "]") <$> go items
  | cJSON_Object members =>
      let fix go (l : list (string * cJSON)) : option string :=
        match l with
        | [] => Some EmptyString
        | [(k, x)] => (λ a, print_string k +:+ ":" +:+ a) <$> print x
        | (k, x) :: rest =>
            match print x, go rest with
            | Some a, Some b => Some (print_string k +:+ ":" +:+ a +:+ "," +:+ b)
            | _, _ => None
            end
        end in
      (λ body, "{" +:+ body +:+ "}") <$> go members
  end.

Definition is_space (c : ascii) : bool :=
  (Nat.leb (nat_of_ascii c) 32 && negb (Ascii.eqb c Ascii.zero))%bool.

Fixpoint skip_whitespace (s : string) : string :=
  match s with
  | EmptyString => EmptyString
  | String c s' => if is_space c then skip_whitespace s' else s
  end.

(** The characters after an opening quote, up to the closing one. *)
Fixpoint parse_string (s : string) : option (string * string) :=
  match s with
  | EmptyString => None
  | String c s' =>
      if Ascii.eqb c quote then Some (EmptyString, s')
      else if Ascii.eqb c backslash then
        match s' with
        | String e s'' =>
            if (Ascii.eqb e quote || Ascii.eqb e backslash || Ascii.eqb e "/"%char)%bool
            then match parse_string s'' with
                 | Some (r, rest) => Some (String e r, rest)
                 | None => None
                 end
            else None
        | EmptyString => None
        end
      else match parse_string s' with
           | Some (r, rest) => Some (String c r, rest)
           | None => None
           end
  end.

Definition is_digit (c : ascii) : bool :=
  (Nat.leb 48 (nat_of_ascii c) && Nat.leb (nat_of_ascii c) 57)%bool.

Fixpoint parse_digits (s : string) (acc : Z) : Z * string :=
  match s with
  | String c s' =>
      if is_digit c then parse_digits s' (10 * acc + Z.of_nat (nat_of_ascii c - 48))%Z
      else (acc, s)
  | EmptyString => (acc, s)
  end.

Definition double_of_integer (n : Z) : float :=
  if (n <? 0)%Z then PrimFloat.opp (PrimFloat.of_uint63 (Uint63.of_Z (- n)))
  else PrimFloat.of_uint63 (Uint63.of_Z n).

Definition literal (word : string) (s : string) : option string :=
  if String.prefix word s
  then Some (String.substring (String.length word) (String.length s - String.length word) s)
  else None.

Fixpoint parse_value (fuel : nat) (s : string) : option (cJSON * string) :=
  match fuel with
  | O => None
  | S fuel =>
      match skip_whitespace s with
      | EmptyString => None
      | String c rest =>
          if Ascii.eqb c "{"%char then
            match skip_whitespace rest with
            | String c' rest' =>
                if Ascii.eqb c' "}"%char then Some (cJSON_Object [], rest')
                else match parse_members fuel rest with
                     | Some (ms, r) => Some (cJSON_Object ms, r)
                     | None => None
                     end
            | EmptyString => None
            end
          else if Ascii.eqb c "["%char then
            match skip_whitespace rest with
            | String c' rest' =>
                if Ascii.eqb c' "]"%char then Some (cJSON_Array [], rest')
                else match parse_items fuel rest with
                     | Some (xs, r) => Some (cJSON_Array xs, r)
                     | None => None
                     end
            | EmptyString => None
            end
          else if Ascii.eqb c quote then
            match parse_string rest with
            | Some (str, r) => Some (cJSON_String str, r)
            | None => None
            end
          else if Ascii.eqb c "-"%char then
            match rest with
            | String d _ =>
                if is_digit d
                then let '(n, r) := parse_digits rest 0 in
                     Some (cJSON_Number (double_of_integer (- n)), r)
                else None
            | EmptyString => None
            end
          else if is_digit c then
            let '(n, r) := parse_digits (String c rest) 0 in
            Some (cJSON_Number (double_of_integer n), r)
          else
            match literal "true" (String c rest), literal "false" (String c rest),
                  literal "null" (String c rest) with
            | Some r, _, _ => Some (cJSON_True, r)
            | _, Some r, _ => Some (cJSON_False, r)
            | _, _, Some r => Some (cJSON_NULL, r)
            | _, _, _ => None
            end
      end
  end
with parse_members (fuel : nat) (s : string) : option (list (string * cJSON) * string) :=
  match fuel with
  | O => None
  | S fuel =>
      match skip_whitespace s with
      | String c rest =>
          if Ascii.eqb c quote then
            match parse_string rest with
            | Some (k, r) =>
                match skip_whitespace r with
                | String c1 r1 =>
                    if Ascii.eqb c1 ":"%char then
                      match parse_value fuel r1 with
                      | Some (v, r2) =>
                          match skip_whitespace r2 with
                          | String c3 r3 =>
                              if Ascii.eqb c3 ","%char then
                                match parse_members fuel r3 with
                                | Some (ms, r4) => Some ((k, v) :: ms, r4)
                                | None => None
                                end
                              else if Ascii.eqb c3 "}"%char then Some ([(k, v)], r3)
                              else None
                          | EmptyString => None
                          end
                      | None => None
                      end
                    else None
                | EmptyString => None
                end
            | None => None
            end
          else None
      | EmptyString => None
      end
  end
with parse_items (fuel : nat) (s : string) : option (list cJSON * string) :=
  match fuel with
  | O => None
  | S fuel =>
      match parse_value fuel s with
      | Some (v, r) =>
          match skip_whitespace r with
          | String c r1 =>
              if Ascii.eqb c ","%char then
                match parse_items fuel r1 with
                | Some (xs, r2) => Some (v :: xs, r2)
                | None => None
                end
              else if Ascii.eqb c "]"%char then Some ([v], r1)
              else None
          | EmptyString => None
          end
      | None => None
      end
  end.

(** Text after the first value is not looked at. *)
Definition parse (text : string) : option cJSON :=
  fst <$> parse_value (2 * String.length text + 2) text.

Definition library : cJSON_library :=
  {| cJSON_Print := print; cJSON_Parse := parse; cJSON_GetErrorPtr := λ _, None |}.

End RefJSON.

(** ** Vocabulary of the specification *)

(** The ["type"] field of a decoded object is missing, is not a string, or
    is a string that names none of the fourteen types. *)
Definition type_defect (root : cJSON) : Prop :=
  match cJSON_GetObjectItemCaseSensitive root "type" with
  | None => True
  | Some (cJSON_String typeStr) => ∀ t, typeStr ≠ signalingMessageTypeToString t
  | Some _ => True
  end.

(** The ["id"] field of a decoded object is missing or is not a string. *)
Definition id_defect (root : cJSON) : Prop :=
  match cJSON_GetObjectItemCaseSensitive root "id" with
  | Some (cJSON_String _) => False
  | _ => True
  end.

(** [cJSON_Parse] returns NULL on the text read as a C string, or the
    tree it returns has a defective ["type"] or ["id"]. *)
Definition undecodable `{cJSON_library} (text : string) : Prop :=
  match cJSON_Parse (c_str text) with
  | None => True
  | Some root => type_defect root ∨ id_defect root
  end.

(** The errors of decoding: both are [std::exception]s. *)
Definition DecodingError (e : exception) : Prop :=
  (∃ what, e = runtime_error what) ∨ (∃ what, e = invalid_argument what).

(** *** JSON texts

    What a valid JSON text is, whatever a library accepts: the grammar of
    RFC 8259 on the bytes of the text. A byte above 127 inside a string
    is not checked to be part of a UTF-8 sequence. *)

Definition JSON_is_ws (c : ascii) : bool :=
  (Nat.eqb (nat_of_ascii c) 32 || Nat.eqb (nat_of_ascii c) 9
   || Nat.eqb (nat_of_ascii c) 10 || Nat.eqb (nat_of_ascii c) 13)%bool.

Definition JSON_is_digit (c : ascii) : bool :=
  (Nat.leb 48 (nat_of_ascii c) && Nat.leb (nat_of_ascii c) 57)%bool.

Definition JSON_is_digit1_9 (c : ascii) : bool :=
  (Nat.leb 49 (nat_of_ascii c) && Nat.leb (nat_of_ascii c) 57)%bool.

Definition JSON_is_hexdig (c : ascii) : bool :=
  (JSON_is_digit c
   || (Nat.leb 65 (nat_of_ascii c) && Nat.leb (nat_of_ascii c) 70)
   || (Nat.leb 97 (nat_of_ascii c) && Nat.leb (nat_of_ascii c) 102))%bool.

(** A character that stands for itself inside a string: no control
    character, not the quote, not the backslash. *)
Definition JSON_is_unescaped (c : ascii) : bool :=
  (Nat.leb 32 (nat_of_ascii c) && negb (Nat.eqb (nat_of_ascii c) 34)
   && negb (Nat.eqb (nat_of_ascii c) 92))%bool.

(** The character after a backslash, [u] apart: quote, backslash, slash,
    [b], [f], [n], [r], [t]. *)
Definition JSON_is_escape (c : ascii) : bool :=
  (Nat.eqb (nat_of_ascii c) 34 || Nat.eqb (nat_of_ascii c) 92
   || Nat.eqb (nat_of_ascii c) 47 || Nat.eqb (nat_of_ascii c) 98
   || Nat.eqb (nat_of_ascii c) 102 || Nat.eqb (nat_of_ascii c) 110
   || Nat.eqb (nat_of_ascii c) 114 || Nat.eqb (nat_of_ascii c) 116)%bool.

Inductive JSON_ws : string → Prop :=
| JSON_ws_nil : JSON_ws EmptyString
| JSON_ws_cons (c : ascii) (s : string) :
    JSON_is_ws c = true → JSON_ws s → JSON_ws (String c s).

Inductive JSON_digits : string → Prop :=
| JSON_digits_one (c : ascii) :
    JSON_is_digit c = true → JSON_digits (String c EmptyString)
| JSON_digits_cons (c : ascii) (s : string) :
    JSON_is_digit c = true → JSON_digits s → JSON_digits (String c s).

Inductive JSON_int : string → Prop :=
| JSON_int_zero : JSON_int "0"
| JSON_int_one (c : ascii) :
    JSON_is_digit1_9 c = true → JSON_int (String c EmptyString)
| JSON_int_more (c : ascii) (s : string) :
    JSON_is_digit1_9 c = true → JSON_digits s → JSON_int (String c s).

Inductive JSON_frac : string → Prop :=
| JSON_frac_none : JSON_frac EmptyString
| JSON_frac_some (s : string) : JSON_digits s → JSON_frac (String "."%char s).

Inductive JSON_exp : string → Prop :=
| JSON_exp_none : JSON_exp EmptyString
| JSON_exp_some (e : ascii) (sign s : string) :
    e = "e"%char ∨ e = "E"%char →
    sign = EmptyString ∨ sign = "-" ∨ sign = "+" →
    JSON_digits s → JSON_exp (String e (sign +:+ s)).

Inductive JSON_number : string → Prop :=
| JSON_number_intro (minus i f e : string) :
    minus = EmptyString ∨ minus = "-" →
    JSON_int i → JSON_frac f → JSON_exp e →
    JSON_number (minus +:+ i +:+ f +:+ e).

(** The characters between the quotes of a string. *)
Inductive JSON_chars : string → Prop :=
| JSON_chars_nil : JSON_chars EmptyString
| JSON_chars_unescaped (c : ascii) (s : string) :
    JSON_is_unescaped c = true → JSON_chars s → JSON_chars (String c s)
| JSON_chars_escape (c : ascii) (s : string) :
    JSON_is_escape c = true → JSON_chars s →
    JSON_chars (String RefJSON.backslash (String c s))
| JSON_chars_unicode (a b c d : ascii) (s : string) :
    JSON_is_hexdig a = true → JSON_is_hexdig b = true →
    JSON_is_hexdig c = true → JSON_is_hexdig d = true →
    JSON_chars s →
    JSON_chars (String RefJSON.backslash
                  (String "u"%char (String a (String b (String c (String d s)))))).

Inductive JSON_string : string → Prop :=
| JSON_string_intro (s : string) :
    JSON_chars s →
    JSON_string (String RefJSON.quote (s +:+ String RefJSON.quote EmptyString)).

(** A value, without white space around it; the elements of an array and
    the members of an object, separated by commas, with the white space
    the grammar allows around each value, name and separator. *)
Inductive JSON_value : string → Prop :=
| JSON_false : JSON_value "false"
| JSON_null : JSON_value "null"
| JSON_true : JSON_value "true"
| JSON_a_number (s : string) : JSON_number s → JSON_value s
| JSON_a_string (s : string) : JSON_string s → JSON_value s
| JSON_empty_array (w : string) : JSON_ws w → JSON_value ("[" +:+ w +:+ "]")
| JSON_array (s : string) : JSON_elements s → JSON_value ("[" +:+ s +:+ "]")
| JSON_empty_object (w : string) : JSON_ws w → JSON_value ("{" +:+ w +:+ "}")
| JSON_object (s : string) : JSON_members s → JSON_value ("{" +:+ s +:+ "}")
with JSON_elements : string → Prop :=
| JSON_element (a v b : string) :
    JSON_ws a → JSON_value v → JSON_ws b → JSON_elements (a +:+ v +:+ b)
| JSON_elements_more (a v b rest : string) :
    JSON_ws a → JSON_value v → JSON_ws b → JSON_elements rest →
    JSON_elements (a +:+ v +:+ b +:+ "," +:+ rest)
with JSON_members : string → Prop :=
| JSON_member (a k b c v d : string) :
    JSON_ws a → JSON_string k → JSON_ws b → JSON_ws c → JSON_value v → JSON_ws d →
    JSON_members (a +:+ k +:+ b +:+ ":" +:+ c +:+ v +:+ d)
| JSON_members_more (a k b c v d rest : string) :
    JSON_ws a → JSON_string k → JSON_ws b → JSON_ws c → JSON_value v → JSON_ws d →
    JSON_members rest →
    JSON_members (a +:+ k +:+ b +:+ ":" +:+ c +:+ v +:+ d +:+ "," +:+ rest).

(** A JSON text: one value with white space around it, and nothing else. *)
Definition JSON_text (s : string) : Prop :=
  ∃ a v b, JSON_ws a ∧ JSON_value v ∧ JSON_ws b ∧ s = a +:+ v +:+ b.

(** The last character of a text that is not white space. *)
Fixpoint last_significant (s : string) : option ascii :=
  match s with
  | EmptyString => None
  | String c s' =>
      match last_significant s' with
      | Some d => Some d
      | None => if JSON_is_ws c then None else Some c
      end
  end.

(** The characters a JSON value can end with: a digit, the last letter of
    [true], [false] or [null], the quote, [']'] and ['}']. *)
Definition JSON_closes (c : ascii) : bool :=
  (JSON_is_digit c || Nat.eqb (nat_of_ascii c) 101 || Nat.eqb (nat_of_ascii c) 108
   || Nat.eqb (nat_of_ascii c) 34 || Nat.eqb (nat_of_ascii c) 93
   || Nat.eqb (nat_of_ascii c) 125)%bool.

(** Field-for-field equality of a message [m'] in heap [h'] and a message
    [m] in heap [h]: the payloads are compared as trees. *)
Definition same_message (h' : gmap loc cJSON) (m' : SignalingMessage)
    (h : gmap loc cJSON) (m : SignalingMessage) : Prop :=
  type m' = type m ∧ id m' = id m ∧ payload_tree h' m' = payload_tree h m ∧
  metadata m' = metadata m.

(** The field the library finds under [name] is a string. *)
Definition has_string_field (t : cJSON) (name : string) : Prop :=
  ∃ s, cJSON_GetObjectItemCaseSensitive t name = Some (cJSON_String s).

(** What the specification asks of the payload, by type. *)
Definition payload_requirement (ty : SignalingMessageType) (pl : option cJSON) : Prop :=
  match ty with
  | REGISTER | REQUEST | ERROR => is_Some pl
  | OFFER | ANSWER => ∃ t, pl = Some t ∧ has_string_field t "sdp"
  | ICE => ∃ t, pl = Some t ∧ has_string_field t "candidate"
  | HEARTBEAT | RESPONSE | DISCONNECT | STATUS | CONFIG_UPDATE | STREAM_INFO | LOG
  | DIAGNOSTICS => True
  end.

(** The metadata map the loop of [deserialize] builds from the members of
    the ["metadata"] object, starting from [md]. *)
Definition metadata_of_members (members : list (string * cJSON)) (md : gmap string string)
  : gmap string string :=
  foldl (λ acc kv,
           match kv.2 with
           | cJSON_String valuestring => <[kv.1 := valuestring]> acc
           | _ => acc
           end) md members.

(** The metadata [deserialize] reads in a parsed root. *)
Definition decoded_metadata (root : cJSON) : gmap string string :=
  match cJSON_GetObjectItemCaseSensitive root "metadata" with
  | Some (cJSON_Object members) => metadata_of_members members ∅
  | _ => ∅
  end.

(** The strings of the message are C strings: the id, and every key and
    value of the metadata, hold no NUL character. *)
Definition C_strings (m : SignalingMessage) : Prop :=
  NUL_free (id m) ∧
  map_Forall (λ k v, NUL_free k ∧ NUL_free v) (metadata m).

(** The two errors of [sendMessage], as the specification names them. *)
Definition NotConnectedError : exception :=
  runtime_error "Not connected to signaling server".

Definition SendIncompleteError : exception :=
  runtime_error "Failed to send complete message".

(** The range of an [int]. *)
Definition is_int (n : Z) : Prop := (- 2 ^ 31 ≤ n < 2 ^ 31)%Z.

(** The frames the transport delivers, in order, each handed to
    [processIncomingMessage]; an exception that leaves the dispatch ends the
    run. *)
Fixpoint receive_frames `{cJSON_library} `{libwebsockets} {App : Type}
    (c : SignalingClient App) (datas : list string) (w : world App)
  : outcome unit * SignalingClient App * world App :=
  match datas with
  | [] => (Ok tt, c, w)
  | data :: rest =>
      match processIncomingMessage c data w with
      | (Ok _, c', w') => receive_frames c' rest w'
      | (Throw e, c', w') => (Throw e, c', w')
      end
  end.

(** What the holder of pointer [p] can do to the heap with it: change the
    tree behind [p], or free it. *)
Inductive mutation_at (p : loc) (h : gmap loc cJSON) : gmap loc cJSON → Prop :=
| mutation_write (u : cJSON) : mutation_at p h (<[p := u]> h)
| mutation_free : mutation_at p h (cJSON_Delete p h).

(** ** Concrete messages, clients and transports *)

(** The id [a], NUL, [b]: three characters. *)
Definition NUL_id : string := String "a" (String Ascii.zero "b").

Definition heartbeat_NUL : SignalingMessage := SignalingMessage_new HEARTBEAT NUL_id.

(** The registration of [main.cpp]: a payload tree in the heap, and the
    message that owns it, with the two metadata entries. *)
Definition camera : cJSON := cJSON_Object [("device_type", cJSON_String "camera")].

Definition camera_heap : gmap loc cJSON := {[ 1%positive := camera ]}.

Definition register_dev42 : SignalingMessage :=
  {| type := REGISTER; id := "dev-42"; payload := Some 1%positive;
     metadata := <["stream_count" := "1"]> {["version" := "1.0.0"]} |}.

(** A text with apostrophes in place of the double quotes. *)
Fixpoint json (s : string) : string :=
  match s with
  | EmptyString => EmptyString
  | String c s' => String (if Ascii.eqb c "'"%char then RefJSON.quote else c) (json s')
  end.

(** A log message as a JSON text; the same bytes followed by a NUL and
    four letters; the same bytes followed by the four letters. *)
Definition plain_frame : string := json "{'type':'LOG','id':'x'}".

Definition NUL_junk_frame : string := plain_frame +:+ String Ascii.zero "junk".

Definition trailing_junk_frame : string := plain_frame +:+ "junk".

(** A transport that gives a connection and refuses every write with -1. *)
Definition refusing_transport : libwebsockets :=
  {| lws_net := unit;
     lws_write := λ _ _ _, ((-1)%Z, tt);
     lws_client_connect_via_info := λ _ _, (Some 1%positive, tt) |}.

Definition the_net : @lws_net refusing_transport := tt.

(** A handler that notes the id of each message it is given. *)
Definition noting_ids : MessageCallback (list string) :=
  λ _ m seen, (None, (seen ++ [id m])%list).

Definition new_client : SignalingClient (list string) :=
  {| serverUrl := "192.30.240.10"; wsi := None; connected := false; running := false;
     incomingMessages := []; messageCallback := None |}.

Definition connected_client : SignalingClient (list string) :=
  set_connection (Some 1%positive) true new_client.

Definition camera_world : world (WS := refusing_transport) (list string) :=
  {| heap := camera_heap; net := the_net; frames := [];
     stderr := []; stdout := []; app := [] |}.

(** ** The rest of the sources *)

(** *** SignalingClient: the end of a connection *)

(** [lws_close_reason(wsi, status, NULL, 0)], the call of the transport
    library that [disconnect()] makes: it acts on the state of the
    library. *)
Class libwebsockets_closing `{WS : libwebsockets} : Type := {
  lws_close_reason : lws_net → lws → lws_net
}.

Definition set_running {App : Type} (b : bool) (c : SignalingClient App)
  : SignalingClient App :=
  {| serverUrl := serverUrl c; wsi := wsi c; connected := connected c; running := b;
     incomingMessages := incomingMessages c; messageCallback := messageCallback c |}.

(** [startEventLoop()] and [stopEventLoop()], on the flag [running]. The
    worker thread they start and join is not part of the state. *)
Definition startEventLoop {App : Type} (c : SignalingClient App) : SignalingClient App :=
  if running c then c else set_running true c.

Definition stopEventLoop {App : Type} (c : SignalingClient App) : SignalingClient App :=
  set_running false c.

(** [disconnect()]. *)
Definition disconnect `{libwebsockets_closing} {App : Type}
    (c : SignalingClient App) (w : world App) : SignalingClient App * world App :=
  if negb (connected c) then (c, w)
  else
    let c1 := stopEventLoop c in
    match wsi c1 with
    | Some l => (set_connection None false c1, with_net (lws_close_reason (net w) l) w)
    | None => (set_connected false c1, w)
    end.

(** *** DeviceConfig *)

(** [class DeviceConfig]. [defaultRtpPort] is a [uint16_t] that nothing
    initialises. *)
Record DeviceConfig : Type := {
  deviceId : string;
  macAddress : string;
  cloudSerialNumber : string;
  rtspUrl : string;
  defaultRtpPort : Z
}.

(** [DeviceConfig::loadFromFile(configPath)]. [files] gives the bytes of
    the file [fopen] finds under a path, [generated] is the id
    [generateDeviceId()] returns when it is called, and [port] is the value
    the uninitialised [defaultRtpPort] happens to hold. The parsed tree is
    freed before the function returns. *)
Definition loadFromFile `{cJSON_library} (files : string → option string)
    (generated : string) (port : Z) (configPath : string) : outcome DeviceConfig :=
  match files (c_str configPath) with
  | None => Throw (runtime_error "Could not open config file")
  | Some buffer =>
      match cJSON_Parse (c_str buffer) with
      | None => Throw (runtime_error "Failed to parse JSON")
      | Some configJson =>
          Ok {| deviceId :=
                  match cJSON_GetObjectItemCaseSensitive configJson "device_id" with
                  | Some (cJSON_String valuestring) => valuestring
                  | Some (cJSON_Raw valuestring) => valuestring
                  | _ => generated
                  end;
                macAddress := ""; cloudSerialNumber := ""; rtspUrl := "";
                defaultRtpPort := port |}
      end
  end.

(** *** Building a tree in the heap *)

(** [cJSON_CreateObject()]: a fresh empty object. *)
Definition cJSON_CreateObject (h : gmap loc cJSON) : loc * gmap loc cJSON :=
  let q := fresh (dom h) in (q, <[q := cJSON_Object []]> h).

(** [cJSON_AddItemToObject(object, name, item)] through an owning pointer:
    the item becomes the last member. *)
Definition add_member (name : string) (item : cJSON) (t : cJSON) : cJSON :=
  match t with
  | cJSON_Object members => cJSON_Object (members ++ [(name, item)])
  | other => other
  end.

Definition cJSON_AddStringToObject (object : loc) (name : string) (str : string)
    (h : gmap loc cJSON) : gmap loc cJSON :=
  alter (add_member name (cJSON_String str)) object h.

Definition cJSON_AddNumberToObject (object : loc) (name : string) (number : float)
    (h : gmap loc cJSON) : gmap loc cJSON :=
  alter (add_member name (cJSON_Number number)) object h.

(** *** DeviceManager ([main.cpp]) *)

Section DeviceManager.
Context `{JSON : cJSON_library} `{WS : libwebsockets} {App : Type}.

(** The end of a function that built [payload], gave a copy to [msg] and
    called [sendMessage(msg)]: on a normal return the caller's tree is
    freed and then [msg] is destroyed; when [sendMessage] throws, [msg] is
    destroyed by the unwinding and [cJSON_Delete(payload)] is not
    reached. *)
Definition send_and_free (c : SignalingClient App) (msg : SignalingMessage)
    (payload : loc) (w : world App) : outcome unit * world App :=
  match sendMessage c msg w with
  | (Ok _, w') =>
      (Ok tt, with_heap (SignalingMessage_destroy msg (cJSON_Delete payload (heap w'))) w')
  | (Throw e, w') => (Throw e, with_heap (SignalingMessage_destroy msg (heap w')) w')
  end.

(** [DeviceManager::sendRegistration()]. *)
Definition sendRegistration (config : DeviceConfig) (c : SignalingClient App)
    (w : world App) : outcome unit * world App :=
  let registrationMsg := SignalingMessage_new REGISTER (deviceId config) in
  let '(payload, h) := cJSON_CreateObject (heap w) in
  let h := cJSON_AddStringToObject payload "device_type" "camera" h in
  let h := cJSON_AddStringToObject payload "mac_address" (c_str (macAddress config)) h in
  let h := cJSON_AddStringToObject payload "csn" (c_str (cloudSerialNumber config)) h in
  let '(registrationMsg, h) := setPayload (Some payload) registrationMsg h in
  let registrationMsg := addMetadata "version" "1.0.0" registrationMsg in
  let registrationMsg := addMetadata "stream_count" "1" registrationMsg in
  send_and_free c registrationMsg payload (with_heap h w).

(** [DeviceManager::sendHeartbeat()]; [uptime] and [temperature] are what
    [getSystemUptime()] and [getSystemTemperature()] return. *)
Definition sendHeartbeat (uptime temperature : float) (config : DeviceConfig)
    (c : SignalingClient App) (w : world App) : outcome unit * world App :=
  let heartbeat := SignalingMessage_new HEARTBEAT (deviceId config) in
  let '(payload, h) := cJSON_CreateObject (heap w) in
  let h := cJSON_AddNumberToObject payload "uptime" uptime h in
  let h := cJSON_AddNumberToObject payload "temperature" temperature h in
  let '(heartbeat, h) := setPayload (Some payload) heartbeat h in
  send_and_free c heartbeat payload (with_heap h w).

(** [DeviceManager::handleStreamRequest(msg)]. *)
Definition handleStreamRequest (config : DeviceConfig) (c : SignalingClient App)
    (msg : SignalingMessage) (w : world App) : outcome unit * world App :=
  let response := SignalingMessage_new RESPONSE (deviceId config) in
  let response := addMetadata "request_id" (getId msg) response in
  let '(payload, h) := cJSON_CreateObject (heap w) in
  let h := cJSON_AddStringToObject payload "status" "available" h in
  let h := cJSON_AddStringToObject payload "stream_url" (c_str (rtspUrl config)) h in
  let '(response, h) := setPayload (Some payload) response h in
  send_and_free c response payload (with_heap h w).

(** [DeviceManager::handleWebRTCOffer(msg)]. *)
Definition handleWebRTCOffer (msg : SignalingMessage) (w : world App) : world App :=
  printf ("Received WebRTC offer" +:+ newline) w.

(** [DeviceManager::handleSignalingMessage(msg)]. *)
Definition handleSignalingMessage (config : DeviceConfig) (c : SignalingClient App)
    (msg : SignalingMessage) (w : world App) : outcome unit * world App :=
  match getType msg with
  | REQUEST => handleStreamRequest config c msg w
  | OFFER => (Ok tt, handleWebRTCOffer msg w)
  | other =>
      (Ok tt,
       printf ("Received unhandled message type: "
               +:+ signalingMessageTypeToString other +:+ newline) w)
  end.

(** [DeviceManager::initialize()]. *)
Definition initialize (config : DeviceConfig) (c : SignalingClient App) (w : world App)
  : outcome bool * SignalingClient App * world App :=
  match connect c w with
  | (false, c1, w1) =>
      (Ok false, c1, fprintf_stderr ("Failed to connect to signaling server" +:+ newline) w1)
  | (true, c1, w1) =>
      let c2 := startEventLoop c1 in
      match sendRegistration config c2 w1 with
      | (Ok _, w2) => (Ok true, c2, w2)
      | (Throw e, w2) => (Throw e, c2, w2)
      end
  end.

End DeviceManager.

(** *** Vocabulary of the further properties *)

(** The last string-valued member of the name [k]. *)
Fixpoint last_string_member (members : list (string * cJSON)) (k : string) : option string :=
  match members with
  | [] => None
  | (name, item) :: rest =>
      match last_string_member rest k with
      | Some s => Some s
      | None =>
          if String.eqb k name
          then match item with
               | cJSON_String s => Some s
               | _ => None
               end
          else None
      end
  end.

(** What a queued or delivered message shows: its type, id and metadata,
    and the tree behind its payload pointer. *)
Definition message_view (h : gmap loc cJSON) (m : SignalingMessage)
  : SignalingMessageType * string * gmap string string * option cJSON :=
  (type m, id m, metadata m, payload_tree h m).

(** The view of the message a frame decodes to; [None] for a frame that
    does not decode. *)
Definition decoded_view `{cJSON_library} (data : string)
  : option (SignalingMessageType * string * gmap string string * option cJSON) :=
  match deserialize data ∅ with
  | (Ok m, h) => Some (message_view h m)
  | (Throw _, _) => None
  end.

(** The number of trees the message holds: one or none. *)
Definition trees_held (m : SignalingMessage) : nat :=
  match payload m with
  | Some _ => 1
  | None => 0
  end.

(** The objects the three senders of [main.cpp] print: the wire objects of
    their messages. *)
Definition registration_payload (config : DeviceConfig) : cJSON :=
  cJSON_Object
    [("device_type", cJSON_String "camera");
     ("mac_address", cJSON_String (c_str (macAddress config)));
     ("csn", cJSON_String (c_str (cloudSerialNumber config)))].

Definition registration_object (config : DeviceConfig) : cJSON :=
  cJSON_Object
    [("type", cJSON_String "REGISTER");
     ("id", cJSON_String (c_str (deviceId config)));
     ("payload", registration_payload config);
     ("metadata",
      cJSON_Object
        [("stream_count", cJSON_String "1"); ("version", cJSON_String "1.0.0")])].

Definition heartbeat_payload (uptime temperature : float) : cJSON :=
  cJSON_Object
    [("uptime", cJSON_Number uptime); ("temperature", cJSON_Number temperature)].

Definition heartbeat_object (uptime temperature : float) (config : DeviceConfig) : cJSON :=
  cJSON_Object
    [("type", cJSON_String "HEARTBEAT");
     ("id", cJSON_String (c_str (deviceId config)));
     ("payload", heartbeat_payload uptime temperature)].

Definition response_payload (config : DeviceConfig) : cJSON :=
  cJSON_Object
    [("status", cJSON_String "available");
     ("stream_url", cJSON_String (c_str (rtspUrl config)))].

Definition response_object (config : DeviceConfig) (request : SignalingMessage) : cJSON :=
  cJSON_Object
    [("type", cJSON_String "RESPONSE");
     ("id", cJSON_String (c_str (deviceId config)));
     ("payload", response_payload config);
     ("metadata", cJSON_Object [("request_id", cJSON_String (c_str (id request)))])].

(** What a sender of [main.cpp] does to the world [w] when it prints
    [object] after building [payload]: nothing is written unless the client
    is connected and the object can be printed; a normal return leaves the
    heap as it was; a throw leaves the caller's tree in the heap. *)
Definition sender_outcome `{cJSON_library} `{libwebsockets} {App : Type}
    (object payload : cJSON) (c : SignalingClient App) (w : world App)
    (r : outcome unit * world App) : Prop :=
  (r.1 = Throw NotConnectedError ↔ isConnected c = false) ∧
  (isConnected c = true →
   match cJSON_Print object with
   | Some text =>
       frames r.2 = (frames w ++ [text])%list ∧
       (r.1 = Ok tt ∨ r.1 = Throw SendIncompleteError)
   | None =>
       frames r.2 = frames w ∧
       r.1 = Throw (runtime_error "Failed to convert JSON to string")
   end) ∧
  (isConnected c = false → frames r.2 = frames w) ∧
  (r.1 = Ok tt → heap r.2 = heap w) ∧
  (throws r.1 →
   ∃ p, heap w !! p = None ∧ heap r.2 = <[p := payload]> (heap w)).

(** *** Further concrete inputs *)

(** A frame whose metadata names [a] twice and holds a number under [b]. *)
Definition log_frame : string :=
  json "{'type':'LOG','id':'x','metadata':{'a':'1','b':2,'a':'3'}}".

Definition offer_frame : string :=
  json "{'type':'OFFER','id':'o1','payload':{'sdp':'v=0'}}".

(** A handler that throws a [std::runtime_error]. *)
Definition throwing_handler : MessageCallback (list string) :=
  λ _ m seen, (Some (runtime_error "handler failed"), seen).

(** Two message objects: the registration at address 1, a message without
    payload at address 2. *)
Definition two_objects : gmap addr SignalingMessage :=
  <[2%positive := SignalingMessage_new LOG "l"]> {[ 1%positive := register_dev42 ]}.

(** * Properties *)

(** ** Strings and type tags *)

Lemma c_str_idemp (s : string) : c_str (c_str s) = c_str s.
Proof.
  induction s as [|c s IH]; simpl; [done|].
  destruct (Ascii.eqb c Ascii.zero) eqn:E; simpl; [done|].
  by rewrite E, IH.
Qed.

Lemma NUL_free_c_str (s : string) : NUL_free (c_str s).
Proof. apply c_str_idemp. Qed.

Lemma c_str_type_name (t : SignalingMessageType) :
  c_str (signalingMessageTypeToString t) = signalingMessageTypeToString t.
Proof. by destruct t. Qed.

Lemma type_of_string_of_type (t : SignalingMessageType) :
  stringToSignalingMessageType (signalingMessageTypeToString t) = Ok t.
Proof. by destruct t. Qed.

(** Walks down the cascade of comparisons of [stringToSignalingMessageType]
    on [s], closing each branch where a name matched with [tac]. *)
Ltac type_name_cascade s tac :=
  unfold stringToSignalingMessageType;
  repeat match goal with
         | |- context [String.eqb s ?name] =>
             destruct (String.eqb_spec s name) as [->|_]; [tac|]
         end.

(** Only the fourteen names are accepted, and each gives its own tag. *)
Lemma string_of_type_of_string (s : string) (t : SignalingMessageType) :
  stringToSignalingMessageType s = Ok t → s = signalingMessageTypeToString t.
Proof. type_name_cascade s ltac:(by intros [= <-]). done. Qed.

Lemma type_of_string_throw_inv (s : string) (e : exception) :
  stringToSignalingMessageType s = Throw e →
  e = invalid_argument ("Unknown message type: " +:+ s).
Proof. type_name_cascade s ltac:(done). by intros [= <-]. Qed.

Lemma type_of_string_throws (s : string) :
  (∀ t, s ≠ signalingMessageTypeToString t) →
  stringToSignalingMessageType s = Throw (invalid_argument ("Unknown message type: " +:+ s)).
Proof.
  intros Hs. destruct (stringToSignalingMessageType s) as [t|e] eqn:E.
  - by apply string_of_type_of_string, Hs in E.
  - by apply type_of_string_throw_inv in E as ->.
Qed.

Lemma empty_spec (s : string) : empty s = true ↔ s = "".
Proof. by destruct s. Qed.

Lemma non_null_spec (p : option loc) : non_null p = true ↔ is_Some p.
Proof. destruct p; simpl; split; (done || eauto || by intros []). Qed.

(** ** Validation per type *)

Lemma cJSON_IsString_spec (item : option cJSON) :
  cJSON_IsString item = true ↔ ∃ s, item = Some (cJSON_String s).
Proof.
  split.
  - destruct item as [[]|]; simpl; try done. eauto.
  - by intros [s ->].
Qed.

Lemma payload_item_string (h : gmap loc cJSON) (m : SignalingMessage) (p : loc) (name : string) :
  payload m = Some p →
  cJSON_IsString (payload_item h p name) = true ↔
  ∃ t, payload_tree h m = Some t ∧ has_string_field t name.
Proof.
  intros Hp. unfold payload_item, payload_tree, has_string_field. rewrite Hp.
  rewrite cJSON_IsString_spec. destruct (h !! p) as [t|].
  - split; [intros [s Hs]; eauto | intros (t' & [= <-] & Hs); done].
  - split; [by intros [s Hs] | by intros (t' & Ht & _)].
Qed.

(** On an object whose member names are distinct, the field found under a
    name is the member of that name. *)
Lemma get_object_item_member (members : list (string * cJSON)) (name : string) (v : cJSON) :
  NoDup members.*1 →
  get_object_item members name = Some v ↔ (name, v) ∈ members.
Proof.
  induction members as [|[k x] rest IH]; simpl; intros Hnd.
  - split; [done | by intros ?%elem_of_nil].
  - apply NoDup_cons in Hnd as [Hk Hnd]. rewrite elem_of_cons.
    destruct (String.eqb_spec name k) as [->|Hne].
    + split; [intros [= ->]; by left|].
      intros [[= ->]|Hin]; [done|].
      exfalso. apply Hk. apply list_elem_of_fmap. by exists (k, v).
    + rewrite (IH Hnd). split; [by right | intros [[= ? ?]|?]; done].
Qed.

(** C2. [validate()] is false whenever the id is empty, whatever the type;
    with a non-empty id it is true exactly when the payload meets the
    requirement of the type: present for REGISTER, REQUEST and ERROR;
    present with a string field [sdp] for OFFER and ANSWER; present with a
    string field [candidate] for ICE; nothing for HEARTBEAT and the
    remaining types. *)
Theorem validate_per_type (h : gmap loc cJSON) (m : SignalingMessage) :
  owns_payload h m →
  (id m = "" → validate h m = false) ∧
  (id m ≠ "" → (validate h m = true ↔ payload_requirement (type m) (payload_tree h m))).
Proof.
  intros Hown. unfold validate. split.
  - intros ->. done.
  - intros Hid. destruct (empty (id m)) eqn:E; [by apply empty_spec in E|].
    assert (Hnn : non_null (payload m) = true ↔ is_Some (payload_tree h m)).
    { rewrite non_null_spec. unfold payload_tree.
      destruct (payload m) as [p|] eqn:Hp; [|split; by intros []].
      split; [intros _; by apply Hown | eauto]. }
    destruct (type m); simpl; try done;
      destruct (payload m) as [p|] eqn:Hp;
      try (by apply payload_item_string);
      (split; [done|]); unfold payload_tree; rewrite Hp; by intros (t & ? & _).
Qed.

(** ** Decoding *)

Lemma read_metadata_eq (members : list (string * cJSON)) (msg : SignalingMessage) :
  read_metadata members msg
  = {| type := type msg; id := id msg; payload := payload msg;
       metadata := metadata_of_members members (metadata msg) |}.
Proof.
  revert msg. unfold read_metadata, metadata_of_members.
  induction members as [|[k v] rest IH]; intros msg; simpl; [by destruct msg|].
  rewrite IH. by destruct v.
Qed.

(** The payload step of [deserialize]: the message gets a fresh tree equal
    to the ["payload"] item, and the trees already in the heap stay. *)
Lemma decoded_payload_fresh (payloadJson : cJSON) (msg : SignalingMessage)
    (h : gmap loc cJSON) :
  payload msg = None →
  ∃ tmp q,
    h !! tmp = None ∧ h !! q = None ∧ tmp ≠ q ∧
    cJSON_Duplicate_item payloadJson true h = (tmp, <[tmp := payloadJson]> h) ∧
    setPayload (Some tmp) msg (<[tmp := payloadJson]> h)
    = ({| type := type msg; id := id msg; payload := Some q; metadata := metadata msg |},
       <[q := payloadJson]> (<[tmp := payloadJson]> h)).
Proof.
  intros Hnull. unfold cJSON_Duplicate_item, setPayload. simpl. rewrite Hnull.
  set (tmp := fresh (dom h)).
  assert (Htmp : h !! tmp = None) by apply not_elem_of_dom, is_fresh.
  set (h1 := <[tmp := payloadJson]> h).
  set (q := fresh (dom h1)).
  assert (Hq : h1 !! q = None) by apply not_elem_of_dom, is_fresh.
  exists tmp, q. unfold cJSON_Duplicate, cJSON_Duplicate_item.
  assert (Hne : tmp ≠ q).
  { intros <-. subst h1. by rewrite lookup_insert_eq in Hq. }
  subst h1. rewrite lookup_insert_eq. fold q.
  rewrite lookup_insert_ne in Hq by done. done.
Qed.

(** What [deserialize] does on a parsed root, case by case. *)
Lemma deserialize_root_cases (root : cJSON) (h : gmap loc cJSON) :
  match cJSON_GetObjectItemCaseSensitive root "type" with
  | Some (cJSON_String typeStr) =>
      match stringToSignalingMessageType typeStr with
      | Throw e => deserialize_root root h = (Throw e, h)
      | Ok t =>
          match cJSON_GetObjectItemCaseSensitive root "id" with
          | Some (cJSON_String idStr) =>
              match cJSON_GetObjectItemCaseSensitive root "payload" with
              | Some payloadJson =>
                  ∃ tmp q, h !! tmp = None ∧ h !! q = None ∧ tmp ≠ q ∧
                    deserialize_root root h
                    = (Ok {| type := t; id := idStr; payload := Some q;
                             metadata := decoded_metadata root |},
                       <[q := payloadJson]> (<[tmp := payloadJson]> h))
              | None =>
                  deserialize_root root h
                  = (Ok {| type := t; id := idStr; payload := None;
                           metadata := decoded_metadata root |}, h)
              end
          | _ =>
              deserialize_root root h
              = (Throw (invalid_argument "Missing or invalid message ID"), h)
          end
      end
  | _ =>
      deserialize_root root h
      = (Throw (invalid_argument "Missing or invalid message type"), h)
  end.
Proof.
  unfold deserialize_root, decoded_metadata.
  destruct (cJSON_GetObjectItemCaseSensitive root "type")
    as [[| | | |typeStr| | |]|]; try done.
  destruct (stringToSignalingMessageType typeStr) as [t|e]; [|done].
  destruct (cJSON_GetObjectItemCaseSensitive root "id")
    as [[| | | |idStr| | |]|]; try done.
  destruct (cJSON_GetObjectItemCaseSensitive root "payload") as [payloadJson|].
  - destruct (decoded_payload_fresh payloadJson
                (setId idStr (setType t SignalingMessage_default)) h)
      as (tmp & q & Htmp & Hq & Hne & -> & ->); [done|].
    exists tmp, q. repeat split; try done.
    destruct (cJSON_GetObjectItemCaseSensitive root "metadata")
      as [[| | | | | |members|]|]; try done.
    by rewrite read_metadata_eq.
  - destruct (cJSON_GetObjectItemCaseSensitive root "metadata")
      as [[| | | | | |members|]|]; try done.
    by rewrite read_metadata_eq.
Qed.

Lemma deserialize_root_throws (root : cJSON) (h : gmap loc cJSON) :
  throws (deserialize_root root h).1 ↔ type_defect root ∨ id_defect root.
Proof.
  pose proof (deserialize_root_cases root h) as Hc.
  unfold type_defect, id_defect, throws.
  destruct (cJSON_GetObjectItemCaseSensitive root "type")
    as [[| | | |typeStr| | |]|]; try (rewrite Hc; simpl; split; eauto).
  destruct (stringToSignalingMessageType typeStr) as [t|e] eqn:Et.
  - apply string_of_type_of_string in Et as ->.
    destruct (cJSON_GetObjectItemCaseSensitive root "id")
      as [[| | | |idStr| | |]|]; try (rewrite Hc; simpl; split; eauto).
    assert (Hok : ∃ m h', deserialize_root root h = (Ok m, h')).
    { destruct (cJSON_GetObjectItemCaseSensitive root "payload");
        [destruct Hc as (? & ? & _ & _ & _ & ->)|rewrite Hc]; eauto. }
    destruct Hok as (m & h' & ->). simpl. split; [by intros [e ?]|].
    intros [Hbad|[]]. by destruct (Hbad t).
  - rewrite Hc. simpl. split; [|eauto]. intros _. left. intros t ->.
    by rewrite type_of_string_of_type in Et.
Qed.

(** A failed decoding leaves the heap as it was and throws a
    [std::exception]. *)
Lemma deserialize_root_throw_inv (root : cJSON) (h h' : gmap loc cJSON) (e : exception) :
  deserialize_root root h = (Throw e, h') →
  h' = h ∧ ∃ what, e = invalid_argument what.
Proof.
  pose proof (deserialize_root_cases root h) as Hc.
  destruct (cJSON_GetObjectItemCaseSensitive root "type")
    as [[| | | |typeStr| | |]|]; try (rewrite Hc; intros [= <- <-]; eauto).
  destruct (stringToSignalingMessageType typeStr) as [t|e'] eqn:Et.
  - destruct (cJSON_GetObjectItemCaseSensitive root "id")
      as [[| | | |idStr| | |]|]; try (rewrite Hc; intros [= <- <-]; eauto).
    destruct (cJSON_GetObjectItemCaseSensitive root "payload");
      [destruct Hc as (? & ? & _ & _ & _ & ->)|rewrite Hc]; done.
  - rewrite Hc. intros [= <- <-]. apply type_of_string_throw_inv in Et. eauto.
Qed.

(** A successful decoding returns the type and the id written in the text. *)
Lemma deserialize_root_ok_inv (root : cJSON) (h h' : gmap loc cJSON) (m : SignalingMessage) :
  deserialize_root root h = (Ok m, h') →
  cJSON_GetObjectItemCaseSensitive root "type"
  = Some (cJSON_String (signalingMessageTypeToString (type m))) ∧
  cJSON_GetObjectItemCaseSensitive root "id" = Some (cJSON_String (id m)) ∧
  metadata m = decoded_metadata root ∧
  match cJSON_GetObjectItemCaseSensitive root "payload" with
  | Some payloadJson =>
      ∃ tmp q, h !! tmp = None ∧ h !! q = None ∧ tmp ≠ q ∧ payload m = Some q ∧
               h' = <[q := payloadJson]> (<[tmp := payloadJson]> h)
  | None => payload m = None ∧ h' = h
  end.
Proof.
  pose proof (deserialize_root_cases root h) as Hc.
  destruct (cJSON_GetObjectItemCaseSensitive root "type")
    as [[| | | |typeStr| | |]|]; try (by rewrite Hc).
  destruct (stringToSignalingMessageType typeStr) as [t|e'] eqn:Et; [|by rewrite Hc].
  apply string_of_type_of_string in Et as ->.
  destruct (cJSON_GetObjectItemCaseSensitive root "id")
    as [[| | | |idStr| | |]|]; try (by rewrite Hc).
  destruct (cJSON_GetObjectItemCaseSensitive root "payload") as [payloadJson|].
  - destruct Hc as (tmp & q & ? & ? & ? & ->). intros [= <- <-]. simpl.
    repeat split; try done. by exists tmp, q.
  - rewrite Hc. by intros [= <- <-].
Qed.


(** ** JSON texts and what decodes *)

Lemma last_significant_app (a b : string) :
  last_significant (a +:+ b)
  = match last_significant b with
    | Some d => Some d
    | None => last_significant a
    end.
Proof.
  induction a as [|c a IH].
  - change (EmptyString +:+ b) with b. by destruct (last_significant b).
  - change (String c a +:+ b) with (String c (a +:+ b)). simpl.
    rewrite IH. by destruct (last_significant b).
Qed.

Lemma JSON_ws_last (s : string) : JSON_ws s → last_significant s = None.
Proof. induction 1 as [|c s Hc _ IH]; simpl; [done|]. by rewrite IH, Hc. Qed.

Lemma JSON_is_digit_closes (c : ascii) :
  JSON_is_digit c = true → JSON_is_ws c = false ∧ JSON_closes c = true.
Proof. by destruct c as [[] [] [] [] [] [] [] []]. Qed.

Lemma JSON_is_digit1_9_digit (c : ascii) :
  JSON_is_digit1_9 c = true → JSON_is_digit c = true.
Proof. by destruct c as [[] [] [] [] [] [] [] []]. Qed.

Lemma JSON_digits_last (s : string) :
  JSON_digits s → ∃ c, last_significant s = Some c ∧ JSON_closes c = true.
Proof.
  induction 1 as [c Hc|c s Hc _ (d & Hd & Hcl)]; simpl.
  - apply JSON_is_digit_closes in Hc as [-> ?]. eauto.
  - rewrite Hd. eauto.
Qed.

Lemma JSON_number_last (s : string) :
  JSON_number s → ∃ c, last_significant s = Some c ∧ JSON_closes c = true.
Proof.
  intros [minus i f e _ Hi Hf He]. rewrite !last_significant_app.
  destruct He as [|e sign ds _ _ (c & Hc & Hcl)%JSON_digits_last].
  - destruct Hf as [|ds (c & Hc & Hcl)%JSON_digits_last].
    + simpl.
      destruct Hi as [|c Hc|c ds Hc (d & Hd & Hcl)%JSON_digits_last]; simpl.
      * eauto.
      * apply JSON_is_digit1_9_digit, JSON_is_digit_closes in Hc as [-> ?]. eauto.
      * rewrite Hd. eauto.
    + simpl. rewrite Hc. eauto.
  - simpl. rewrite last_significant_app, Hc. eauto.
Qed.

Lemma JSON_string_last (s : string) :
  JSON_string s → ∃ c, last_significant s = Some c ∧ JSON_closes c = true.
Proof.
  intros [chars _]. simpl. rewrite last_significant_app. simpl.
  by exists RefJSON.quote.
Qed.

(** A JSON value ends with the end of a number, a literal or a string, or
    with a closing bracket. *)
Lemma JSON_value_last (v : string) :
  JSON_value v → ∃ c, last_significant v = Some c ∧ JSON_closes c = true.
Proof.
  intros [| | |s Hs|s Hs|w _|s _|w _|s _].
  - by exists "e"%char.
  - by exists "l"%char.
  - by exists "e"%char.
  - by apply JSON_number_last.
  - by apply JSON_string_last.
  - rewrite !last_significant_app. by exists "]"%char.
  - rewrite !last_significant_app. by exists "]"%char.
  - rewrite !last_significant_app. by exists "}"%char.
  - rewrite !last_significant_app. by exists "}"%char.
Qed.

(** The last character of a JSON text that is not white space ends a
    value. *)
Lemma JSON_text_last (s : string) :
  JSON_text s → ∃ c, last_significant s = Some c ∧ JSON_closes c = true.
Proof.
  intros (a & v & b & _ & (c & Hc & Hcl)%JSON_value_last & Hb%JSON_ws_last & ->).
  rewrite !last_significant_app, Hb, Hc. eauto.
Qed.

(** The log message is a JSON text. *)
Lemma JSON_text_plain_frame : JSON_text plain_frame.
Proof.
  exists EmptyString, plain_frame, EmptyString.
  split; [constructor|]. split; [|split; [constructor|reflexivity]].
  change (JSON_value ("{" +:+ json "'type':'LOG','id':'x'" +:+ "}")).
  apply JSON_object.
  change (JSON_members (EmptyString +:+ json "'type'" +:+ EmptyString +:+ ":"
                        +:+ EmptyString +:+ json "'LOG'" +:+ EmptyString +:+ ","
                        +:+ json "'id':'x'")).
  apply JSON_members_more; try apply JSON_ws_nil.
  - change (JSON_string (String RefJSON.quote ("type" +:+ String RefJSON.quote EmptyString))).
    apply JSON_string_intro. repeat (apply JSON_chars_unescaped; [reflexivity|]).
    apply JSON_chars_nil.
  - apply JSON_a_string.
    change (JSON_string (String RefJSON.quote ("LOG" +:+ String RefJSON.quote EmptyString))).
    apply JSON_string_intro. repeat (apply JSON_chars_unescaped; [reflexivity|]).
    apply JSON_chars_nil.
  - change (JSON_members (EmptyString +:+ json "'id'" +:+ EmptyString +:+ ":"
                          +:+ EmptyString +:+ json "'x'" +:+ EmptyString)).
    apply JSON_member; try apply JSON_ws_nil.
    + change (JSON_string (String RefJSON.quote ("id" +:+ String RefJSON.quote EmptyString))).
      apply JSON_string_intro. repeat (apply JSON_chars_unescaped; [reflexivity|]).
      apply JSON_chars_nil.
    + apply JSON_a_string.
      change (JSON_string (String RefJSON.quote ("x" +:+ String RefJSON.quote EmptyString))).
      apply JSON_string_intro. repeat (apply JSON_chars_unescaped; [reflexivity|]).
      apply JSON_chars_nil.
Qed.


(** ** Round trip *)

Lemma foldl_insert_list_to_map (l : list (string * string)) (acc : gmap string string) :
  NoDup l.*1 →
  foldl (λ a kv, <[kv.1 := kv.2]> a) acc l = list_to_map l ∪ acc.
Proof.
  revert acc. induction l as [|[k v] l IH]; intros acc Hnd.
  - simpl. by rewrite (left_id_L ∅ (∪)).
  - rewrite fmap_cons in Hnd. apply NoDup_cons in Hnd as [Hk Hnd].
    cbn [foldl]. rewrite IH by done. rewrite list_to_map_cons.
    rewrite <- insert_union_l. symmetry. apply insert_union_r.
    by apply not_elem_of_list_to_map_1.
Qed.

Lemma metadata_of_members_c_str (l : list (string * string)) (acc : gmap string string) :
  Forall (λ kv, NUL_free kv.1 ∧ NUL_free kv.2) l →
  metadata_of_members ((λ kv, (c_str kv.1, cJSON_String (c_str kv.2))) <$> l) acc
  = foldl (λ a kv, <[kv.1 := kv.2]> a) acc l.
Proof.
  unfold metadata_of_members. intros Hl. revert acc.
  induction Hl as [|[k v] l [Hk Hv] _ IH]; intros acc; simpl; [done|].
  simpl in Hk, Hv. rewrite Hk, Hv. apply IH.
Qed.

(** The metadata written by [serialize] is read back whole. *)
Lemma metadata_of_metadata_members (md : gmap string string) :
  (∀ k v, md !! k = Some v → NUL_free k ∧ NUL_free v) →
  metadata_of_members (metadata_members md) ∅ = md.
Proof.
  intros Hmd. unfold metadata_members.
  rewrite metadata_of_members_c_str.
  - rewrite foldl_insert_list_to_map by apply NoDup_fst_map_to_list.
    by rewrite (right_id_L ∅ (∪)), list_to_map_to_list.
  - apply Forall_forall. intros [k v] Hin. apply Hmd.
    by apply elem_of_map_to_list.
Qed.

(** The four fields of the object [serialize] prints. *)
Lemma wire_object_fields (h : gmap loc cJSON) (m : SignalingMessage) :
  cJSON_GetObjectItemCaseSensitive (wire_object h m) "type"
  = Some (cJSON_String (c_str (signalingMessageTypeToString (type m)))) ∧
  cJSON_GetObjectItemCaseSensitive (wire_object h m) "id"
  = Some (cJSON_String (c_str (id m))) ∧
  cJSON_GetObjectItemCaseSensitive (wire_object h m) "payload" = payload_tree h m ∧
  cJSON_GetObjectItemCaseSensitive (wire_object h m) "metadata"
  = (if decide (metadata m = ∅) then None
     else Some (cJSON_Object (metadata_members (metadata m)))).
Proof.
  unfold wire_object.
  destruct (payload_tree h m), (decide (metadata m = ∅)); done.
Qed.

Lemma decoded_metadata_wire_object (h : gmap loc cJSON) (m : SignalingMessage) :
  (∀ k v, metadata m !! k = Some v → NUL_free k ∧ NUL_free v) →
  decoded_metadata (wire_object h m) = metadata m.
Proof.
  intros Hmd. unfold decoded_metadata.
  destruct (wire_object_fields h m) as (_ & _ & _ & ->).
  destruct (decide (metadata m = ∅)) as [->|_]; [done|].
  by apply metadata_of_metadata_members.
Qed.

(** Decoding the object that [serialize] prints. *)
Lemma deserialize_root_wire_object (h : gmap loc cJSON) (m : SignalingMessage) :
  ∃ m' h',
    deserialize_root (wire_object h m) h = (Ok m', h') ∧
    type m' = type m ∧ id m' = c_str (id m) ∧
    payload_tree h' m' = payload_tree h m ∧
    metadata m' = decoded_metadata (wire_object h m).
Proof.
  pose proof (deserialize_root_cases (wire_object h m) h) as Hc.
  destruct (wire_object_fields h m) as (Ht & Hi & Hp & _).
  rewrite Ht, Hi, Hp, c_str_type_name, type_of_string_of_type in Hc.
  destruct (payload_tree h m) as [t|] eqn:Hpt.
  - destruct Hc as (tmp & q & Htmp & Hq & Hne & ->).
    eexists _, _. split; [done|]. repeat split.
    unfold payload_tree. simpl. by rewrite lookup_insert_eq.
  - rewrite Hc. eexists _, _. split; [done|]. by repeat split.
Qed.

(** C1, as the code has it. For every message whose id, metadata keys and
    metadata values hold no NUL character: when [serialize] gives a text
    that the library parses back to the object that was printed,
    [deserialize] of that text succeeds with a message of the same type, the
    same id, a payload tree equal to the original (or both absent) and the
    same metadata map. *)
Theorem deserialize_serialize `{cJSON_library}
    (h : gmap loc cJSON) (m : SignalingMessage) (text : string) :
  C_strings m →
  serialize h m = Ok text →
  cJSON_Parse (c_str text) = Some (wire_object h m) →
  ∃ m' h', deserialize text h = (Ok m', h') ∧ same_message h' m' h m.
Proof.
  intros [Hid Hmd] _ Hparse. unfold deserialize. rewrite Hparse.
  destruct (deserialize_root_wire_object h m) as (m' & h' & -> & Ht & Hi & Hp & Hm).
  exists m', h'. split; [done|]. unfold same_message.
  rewrite Ht, Hi, Hp, Hm, Hid. repeat split.
  by apply decoded_metadata_wire_object.
Qed.

(** ** Ownership of the payload tree *)

Lemma mutation_at_other (p q : loc) (h h'' : gmap loc cJSON) :
  mutation_at p h h'' → q ≠ p → h'' !! q = h !! q.
Proof.
  intros [u|] Hne.
  - by rewrite lookup_insert_ne.
  - unfold cJSON_Delete. by rewrite lookup_delete_ne.
Qed.

(** A deep duplicate is a fresh tree equal to the original. *)
Lemma cJSON_Duplicate_live (p : loc) (t : cJSON) (h : gmap loc cJSON) :
  h !! p = Some t →
  ∃ q, cJSON_Duplicate (Some p) true h = (Some q, <[q := t]> h) ∧
       h !! q = None ∧ q ≠ p.
Proof.
  intros Hp. unfold cJSON_Duplicate, cJSON_Duplicate_item. rewrite Hp.
  exists (fresh (dom h)).
  assert (Hq : h !! fresh (dom h) = None) by apply not_elem_of_dom, is_fresh.
  repeat split; [done|]. intros Heq. rewrite Heq in Hq. congruence.
Qed.

(** The original and the duplicate do not share: a change through either
    pointer leaves the tree behind the other as it was. *)
Lemma duplicate_independent (p q : loc) (t : cJSON) (h : gmap loc cJSON) :
  h !! p = Some t → q ≠ p →
  (∀ h'', mutation_at p (<[q := t]> h) h'' → h'' !! q = Some t) ∧
  (∀ h'', mutation_at q (<[q := t]> h) h'' → h'' !! p = Some t).
Proof.
  intros Hp Hne. split; intros h'' Hm.
  - rewrite (mutation_at_other _ _ _ _ Hm) by done. apply lookup_insert_eq.
  - rewrite (mutation_at_other _ _ _ _ Hm) by done. by rewrite lookup_insert_ne.
Qed.

Lemma SignalingMessage_move_fst (m : SignalingMessage) : (SignalingMessage_move m).1 = m.
Proof. by destruct m. Qed.

(** C7. For a message [m] that holds the payload tree [t] behind pointer
    [p]. Copying [m] gives a message with the type, id and metadata of [m]
    and a payload behind a fresh pointer [q]: a tree equal to [t] and shared
    with nothing, since a change through [p] leaves the tree behind [q] as it
    is and a change through [q] leaves the tree behind [p] as it is. Moving
    from [m], by construction or by assignment to another object, gives the
    destination the type, id, metadata and the very pointer [p] of [m], with
    the tree [t] still behind it, and leaves the source with a null
    payload. *)
Theorem copy_duplicates_move_transfers
    (h : gmap loc cJSON) (m : SignalingMessage) (p : loc) (t : cJSON) :
  payload m = Some p → h !! p = Some t →
  (∃ q, SignalingMessage_copy m h
        = ({| type := type m; id := id m; payload := Some q; metadata := metadata m |},
           <[q := t]> h) ∧
        q ≠ p ∧ h !! q = None ∧
        (∀ h'', mutation_at p (<[q := t]> h) h'' → h'' !! q = Some t) ∧
        (∀ h'', mutation_at q (<[q := t]> h) h'' → h'' !! p = Some t)) ∧
  ((SignalingMessage_move m).1 = m ∧ payload (SignalingMessage_move m).2 = None) ∧
  (∀ (this other : addr) (objs : gmap addr SignalingMessage) (d : SignalingMessage),
      this ≠ other → objs !! this = Some d → objs !! other = Some m →
      payload d ≠ Some p →
      ∃ objs' h' src,
        SignalingMessage_move_assign this other objs h = (objs', h') ∧
        objs' !! this = Some m ∧ objs' !! other = Some src ∧
        payload src = None ∧ h' !! p = Some t).
Proof.
  intros Hp Ht. split; [|split].
  - unfold SignalingMessage_copy. rewrite Hp.
    destruct (cJSON_Duplicate_live p t h Ht) as (q & -> & Hq & Hne).
    exists q. split; [done|]. split; [done|]. split; [done|].
    by apply duplicate_independent.
  - split; [apply SignalingMessage_move_fst | done].
  - intros this other objs d Hne Hthis Hother Hd.
    unfold SignalingMessage_move_assign.
    rewrite decide_False by done. rewrite Hthis, Hother.
    pose proof (SignalingMessage_move_fst m) as Hm.
    destruct (SignalingMessage_move m) as [new src] eqn:Emove. simpl in Hm. subst new.
    eexists _, _, src. split; [done|].
    split; [by rewrite lookup_insert_ne, lookup_insert_eq|].
    split; [by rewrite lookup_insert_eq|].
    split; [by inversion Emove|].
    destruct (payload d) as [old|] eqn:Hold; [|done].
    unfold cJSON_Delete. rewrite lookup_delete_ne; [done|]. congruence.
Qed.

(** C10. [setPayload(p)] on a tree [t] held by the caller stores a fresh
    copy: the message's payload is a tree equal to [t] behind a pointer of
    its own, the caller's tree is still behind [p], and whatever the caller
    then does through [p], also freeing it, the message's payload stays
    [t]. [getPayload()] then gives the caller another fresh tree equal to
    [t], and whatever is done through that pointer the message's payload
    stays [t]; on a message without payload [getPayload()] gives NULL and
    changes nothing. *)
Theorem payload_accessors_copy
    (h : gmap loc cJSON) (m : SignalingMessage) (p : loc) (t : cJSON) :
  h !! p = Some t → payload m ≠ Some p →
  (∃ q h1 m1,
      setPayload (Some p) m h = (m1, h1) ∧
      m1 = {| type := type m; id := id m; payload := Some q; metadata := metadata m |} ∧
      q ≠ p ∧ payload_tree h1 m1 = Some t ∧ h1 !! p = Some t ∧
      (∀ h'', mutation_at p h1 h'' → payload_tree h'' m1 = Some t) ∧
      ∃ r h2,
        getPayload m1 h1 = (Some r, h2) ∧ r ≠ q ∧ h1 !! r = None ∧
        h2 !! r = Some t ∧ payload_tree h2 m1 = Some t ∧
        (∀ h'', mutation_at r h2 h'' → payload_tree h'' m1 = Some t)) ∧
  (∀ m0 : SignalingMessage, payload m0 = None → getPayload m0 h = (None, h)).
Proof.
  intros Ht Hne. split.
  - unfold setPayload.
    set (h0 := match payload m with
               | Some old => cJSON_Delete old h
               | None => h
               end).
    assert (Ht0 : h0 !! p = Some t).
    { subst h0. destruct (payload m) as [old|]; [|done].
      unfold cJSON_Delete. rewrite lookup_delete_ne; [done|]. congruence. }
    destruct (cJSON_Duplicate_live p t h0 Ht0) as (q & -> & Hq & Hqp).
    exists q, (<[q := t]> h0),
      {| type := type m; id := id m; payload := Some q; metadata := metadata m |}.
    split; [done|]. split; [done|]. split; [done|].
    unfold payload_tree. simpl.
    destruct (duplicate_independent p q t h0 Ht0 Hqp) as [Hind1 Hind2].
    split; [by rewrite lookup_insert_eq|].
    split; [by rewrite lookup_insert_ne|].
    split; [done|].
    unfold getPayload. cbn [payload].
    destruct (cJSON_Duplicate_live q t (<[q := t]> h0)) as (r & -> & Hr & Hrq);
      [by rewrite lookup_insert_eq|].
    exists r, (<[r := t]> (<[q := t]> h0)).
    split; [done|]. split; [done|]. split; [done|].
    split; [by rewrite lookup_insert_eq|].
    split; [by rewrite lookup_insert_ne, lookup_insert_eq|].
    intros h'' Hm. rewrite (mutation_at_other _ _ _ _ Hm) by done.
    by rewrite lookup_insert_ne, lookup_insert_eq.
  - intros m0 Hm0. unfold getPayload. by rewrite Hm0.
Qed.

(** ** The send path *)

Lemma int_lt_size_t_nonneg (n : Z) (len : nat) :
  (0 ≤ n)%Z → is_int n → int_lt_size_t n len = bool_decide (n < Z.of_nat len)%Z.
Proof.
  unfold int_lt_size_t, int_to_size_t, size_t_bits, is_int. intros Hn Hi.
  rewrite Z.mod_small by lia.
  case_bool_decide; [by apply Z.ltb_lt | by apply Z.ltb_ge; lia].
Qed.

(** A negative [int] becomes a [size_t] above every length below [2 ^ 63]. *)
Lemma int_lt_size_t_negative (n : Z) (len : nat) :
  (n < 0)%Z → is_int n → (Z.of_nat len < 2 ^ 63)%Z → int_lt_size_t n len = false.
Proof.
  unfold int_lt_size_t, int_to_size_t, size_t_bits, is_int. intros Hn Hi Hlen.
  apply Z.ltb_ge.
  replace (n mod 2 ^ 64)%Z with (n + 2 ^ 64)%Z; [lia|].
  symmetry. rewrite <- (Z.mod_add n 1 (2 ^ 64)) by lia.
  apply Z.mod_small. lia.
Qed.

(** The same at every width of [size_t] from 32 bits on. *)
Lemma negative_int_as_size_t (bits n : Z) (len : nat) :
  (32 ≤ bits)%Z → (n < 0)%Z → is_int n → (Z.of_nat len < 2 ^ (bits - 1))%Z →
  (Z.of_nat len ≤ n mod 2 ^ bits)%Z.
Proof.
  unfold is_int. intros Hb Hn Hi Hlen.
  assert (H31 : (2 ^ 31 ≤ 2 ^ (bits - 1))%Z) by (apply Z.pow_le_mono_r; lia).
  assert (Hp : (2 ^ bits = 2 * 2 ^ (bits - 1))%Z).
  { rewrite <- Z.pow_succ_r by lia. f_equal. lia. }
  replace (n mod 2 ^ bits)%Z with (n + 1 * 2 ^ bits)%Z; [lia|].
  symmetry. rewrite <- (Z.mod_add n 1 (2 ^ bits)) by lia.
  apply Z.mod_small. lia.
Qed.

Section ClientProperties.
Context `{JSON : cJSON_library} `{WS : libwebsockets} {App : Type}.
Implicit Types (c : SignalingClient App) (w : world App) (message : SignalingMessage).

Lemma with_heap_same w : with_heap (heap w) w = w.
Proof. by destruct w. Qed.

(** C4. While [isConnected()] is false, [sendMessage] throws the
    not-connected error and the world is left as it was: nothing is handed
    to the transport, whatever the message is and whether or not it could
    be encoded. *)
Theorem sendMessage_not_connected c message w :
  isConnected c = false →
  sendMessage c message w = (Throw NotConnectedError, w).
Proof. unfold isConnected, sendMessage. by intros ->. Qed.

(** On a connected client the message is encoded and written once; the
    comparison of the [int] result with the [size_t] length decides. *)
Lemma sendMessage_connected c message w serializedMsg n net' :
  isConnected c = true →
  serialize (heap w) message = Ok serializedMsg →
  lws_write (net w) (wsi c) serializedMsg = (n, net') →
  sendMessage c message w
  = (if int_lt_size_t n (String.length serializedMsg)
     then Throw SendIncompleteError else Ok tt,
     written serializedMsg net' w).
Proof.
  unfold isConnected, sendMessage. intros -> -> ->. simpl.
  by destruct (int_lt_size_t _ _).
Qed.

(** When the transport answers with a count that is not negative, the
    send fails exactly when fewer bytes than the length were accepted. *)
Lemma sendMessage_short_write c message w serializedMsg n net' :
  isConnected c = true →
  serialize (heap w) message = Ok serializedMsg →
  lws_write (net w) (wsi c) serializedMsg = (n, net') →
  is_int n → (0 ≤ n)%Z →
  (sendMessage c message w).1
  = if bool_decide (n < Z.of_nat (String.length serializedMsg))%Z
    then Throw SendIncompleteError else Ok tt.
Proof.
  intros Hc Hs Hw Hi Hn. rewrite (sendMessage_connected _ _ _ _ _ _ Hc Hs Hw). simpl.
  by rewrite int_lt_size_t_nonneg.
Qed.

(** C5, what the code does. When the transport answers with a negative
    [int] (a failed write, no byte accepted), [sendMessage] returns
    normally: the conversion of the [int] to [size_t] makes it larger than
    the length, so no error is thrown. *)
Theorem sendMessage_negative_write_returns c message w serializedMsg n net' :
  isConnected c = true →
  serialize (heap w) message = Ok serializedMsg →
  lws_write (net w) (wsi c) serializedMsg = (n, net') →
  is_int n → (n < 0)%Z →
  (Z.of_nat (String.length serializedMsg) < 2 ^ 63)%Z →
  sendMessage c message w = (Ok tt, written serializedMsg net' w).
Proof.
  intros Hc Hs Hw Hi Hn Hlen. rewrite (sendMessage_connected _ _ _ _ _ _ Hc Hs Hw).
  by rewrite int_lt_size_t_negative.
Qed.

(** ** Connection state *)

(** C6, as the code has it. [connect()] on a connected client returns
    true at once and changes nothing. Otherwise it asks the transport for
    a connection and does not throw: when none is given it returns false
    and the client stays disconnected; when one is given it returns true
    and has set the connected flag itself, so [isConnected()] is true as
    soon as [connect()] returns. In every case the result of [connect()]
    is the value of [isConnected()] on return. *)
Theorem connect_sets_connected c w :
  isConnected (connect c w).1.2 = (connect c w).1.1 ∧
  (isConnected c = true → connect c w = (true, c, w)) ∧
  (isConnected c = false →
   ∀ n, lws_client_connect_via_info (net w) (c_str (serverUrl c)) = (None, n) →
        connect c w = (false, set_connection None false c, with_net n w)) ∧
  (isConnected c = false →
   ∀ conn n, lws_client_connect_via_info (net w) (c_str (serverUrl c)) = (Some conn, n) →
             connect c w = (true, set_connection (Some conn) true c, with_net n w)).
Proof.
  unfold isConnected, connect. repeat split.
  - destruct (connected c) eqn:E; [done|].
    by destruct (lws_client_connect_via_info _ _) as [[conn|] n].
  - by intros ->.
  - by intros -> n ->.
  - by intros -> conn n ->.
Qed.

(** ** Inbound dispatch *)

Lemma deserialize_throw_inv data (h h' : gmap loc cJSON) e :
  deserialize data h = (Throw e, h') →
  h' = h ∧ DecodingError e ∧ is_Some (std_exception_what e).
Proof.
  unfold deserialize, DecodingError.
  destruct (cJSON_Parse (c_str data)) as [root|].
  - intros [-> [what ->]]%deserialize_root_throw_inv. simpl. eauto 6.
  - intros [= <- <-]. simpl. eauto 6.
Qed.

(** A decoded message holds a tree that was not in the heap before, and
    the trees that were there stay. *)
Lemma deserialize_ok_inv data (h h' : gmap loc cJSON) message :
  deserialize data h = (Ok message, h') →
  h ⊆ h' ∧ ∀ q, payload message = Some q → h !! q = None.
Proof.
  unfold deserialize. destruct (cJSON_Parse (c_str data)) as [root|]; [|done].
  intros (_ & _ & _ & Hp)%deserialize_root_ok_inv.
  destruct (cJSON_GetObjectItemCaseSensitive root "payload") as [payloadJson|].
  - destruct Hp as (tmp & q & Htmp & Hq & Hne & -> & ->). split.
    + etrans; [apply (insert_subseteq h tmp payloadJson); done|].
      apply insert_subseteq. by rewrite lookup_insert_ne.
    + by intros ? [= <-].
  - destruct Hp as [-> ->]. done.
Qed.

(** C8. When the decoding of an inbound frame fails, the dispatch writes
    one line to the error stream and does nothing else: it returns
    normally, the client is as before (same handler, same queue), the
    handler was not run (its state is as before), and the heap and the
    transport are as before. The callback of the transport that called the
    dispatch returns 0 to the library, so the connection and the event loop
    go on. *)
Theorem processIncomingMessage_decode_failure c data w :
  throws (deserialize data (heap w)).1 →
  ∃ what,
    processIncomingMessage c data w
    = (Ok tt, c, fprintf_stderr ("Message deserialization error: " +:+ what +:+ newline) w) ∧
    callback_signaling c LWS_CALLBACK_CLIENT_RECEIVE data w
    = (Ok 0%Z, c, fprintf_stderr ("Message deserialization error: " +:+ what +:+ newline) w).
Proof.
  intros [e He].
  assert (Hp : ∃ what,
             processIncomingMessage c data w
             = (Ok tt, c,
                fprintf_stderr ("Message deserialization error: " +:+ what +:+ newline) w)).
  { unfold processIncomingMessage.
    destruct (deserialize data (heap w)) as [o h'] eqn:E. simpl in He. subst o.
    apply deserialize_throw_inv in E as (-> & _ & [what Hwhat]).
    exists what. unfold catch_std_exception. by rewrite Hwhat, with_heap_same. }
  destruct Hp as [what Hp]. exists what. split; [done|].
  unfold callback_signaling. by rewrite Hp.
Qed.

(** The trees that are in the heap when a frame arrives are there,
    unchanged, when the dispatch is over. *)
Lemma processIncomingMessage_heap_frame c data w (l : loc) (t : cJSON) :
  heap w !! l = Some t →
  heap (processIncomingMessage c data w).2 !! l = Some t.
Proof.
  intros Hl. unfold processIncomingMessage.
  destruct (deserialize data (heap w)) as [[message|e] h1] eqn:E.
  - apply deserialize_ok_inv in E as [Hsub Hfresh].
    assert (Hl1 : h1 !! l = Some t) by by eapply lookup_weaken.
    assert (Hd : ∀ h2 : gmap loc cJSON,
               h2 !! l = Some t → SignalingMessage_destroy message h2 !! l = Some t).
    { intros h2 Hl2. unfold SignalingMessage_destroy, cJSON_Delete.
      destruct (payload message) as [q|] eqn:Hq; [|done].
      rewrite lookup_delete_ne; [done|]. intros <-.
      specialize (Hfresh _ eq_refl). congruence. }
    destruct (messageCallback c) as [callback|].
    + destruct (callback h1 message (app w)) as [[e|] a]; simpl; [|by apply Hd].
      unfold catch_std_exception. destruct (std_exception_what e); simpl; by apply Hd.
    + unfold SignalingMessage_copy, cJSON_Duplicate, cJSON_Duplicate_item.
      destruct (payload message) as [q|] eqn:Hq; simpl; [|by apply Hd].
      destruct (h1 !! q) as [tq|] eqn:Htq; simpl; apply Hd; [|done].
      rewrite lookup_insert_ne; [done|]. intros <-.
      pose proof (is_fresh (dom h1)) as Hf. apply not_elem_of_dom in Hf. congruence.
  - apply deserialize_throw_inv in E as (-> & _ & [what Hwhat]).
    unfold catch_std_exception. by rewrite Hwhat.
Qed.

(** With a handler registered the dispatch never changes the client. *)
Lemma processIncomingMessage_with_handler c data w callback :
  messageCallback c = Some callback →
  (processIncomingMessage c data w).1.2 = c.
Proof.
  intros Hcb. unfold processIncomingMessage. rewrite Hcb.
  destruct (deserialize data (heap w)) as [[message|e] h1].
  - destruct (callback h1 message (app w)) as [[e|] a]; [|done].
    by destruct (catch_std_exception e _).
  - by destruct (catch_std_exception e _).
Qed.

(** With a handler registered a decoded message is handed to it. *)
Lemma processIncomingMessage_delivers c data w callback message h1 :
  messageCallback c = Some callback →
  deserialize data (heap w) = (Ok message, h1) →
  app (processIncomingMessage c data w).2 = (callback h1 message (app w)).2.
Proof.
  intros Hcb Hd. unfold processIncomingMessage. rewrite Hcb, Hd.
  destruct (callback h1 message (app w)) as [[e|] a]; [|done].
  unfold catch_std_exception. by destruct (std_exception_what e).
Qed.

Lemma receive_frames_with_handler c datas w callback :
  messageCallback c = Some callback →
  (receive_frames c datas w).1.2 = c.
Proof.
  intros Hcb. revert w. induction datas as [|data rest IH]; intros w; simpl; [done|].
  pose proof (processIncomingMessage_with_handler c data w callback Hcb) as Hc.
  destruct (processIncomingMessage c data w) as [[[[]|e] c'] w']; simpl in Hc; subst c'.
  - apply IH.
  - done.
Qed.

Lemma receive_frames_heap_frame c datas w (l : loc) (t : cJSON) :
  heap w !! l = Some t →
  heap (receive_frames c datas w).2 !! l = Some t.
Proof.
  revert c w. induction datas as [|data rest IH]; intros c w Hl; simpl; [done|].
  pose proof (processIncomingMessage_heap_frame c data w l t Hl) as Hh.
  destruct (processIncomingMessage c data w) as [[[[]|e] c'] w']; simpl in Hh.
  - by apply IH.
  - done.
Qed.

(** C9. Registering a handler replaces the one before and leaves the
    queue as it is. From then on a frame that decodes is handed to the
    handler; and whatever frames arrive, the client is as it was after the
    registration: the handler stays, nothing is appended to the queue, and
    the payload trees of the queued messages are the same as before. *)
Theorem handler_precedence c (callback : MessageCallback App) :
  (messageCallback (setMessageCallback (Some callback) c) = Some callback ∧
   incomingMessages (setMessageCallback (Some callback) c) = incomingMessages c) ∧
  (∀ data w message h1,
      deserialize data (heap w) = (Ok message, h1) →
      (processIncomingMessage (setMessageCallback (Some callback) c) data w).1.2
      = setMessageCallback (Some callback) c ∧
      app (processIncomingMessage (setMessageCallback (Some callback) c) data w).2
      = (callback h1 message (app w)).2) ∧
  (∀ datas w,
      (receive_frames (setMessageCallback (Some callback) c) datas w).1.2
      = setMessageCallback (Some callback) c) ∧
  (∀ datas w m,
      m ∈ incomingMessages c → owns_payload (heap w) m →
      payload_tree
        (heap (receive_frames (setMessageCallback (Some callback) c) datas w).2) m
      = payload_tree (heap w) m).
Proof.
  split; [done|]. split; [|split].
  - intros data w message h1 Hd. split.
    + by eapply processIncomingMessage_with_handler.
    + by eapply processIncomingMessage_delivers.
  - intros datas w. by eapply receive_frames_with_handler.
  - intros datas w m _ Hown. unfold payload_tree.
    destruct (payload m) as [p|] eqn:Hp; [|done].
    destruct (Hown p Hp) as [t Ht]. rewrite Ht.
    by apply receive_frames_heap_frame.
Qed.

End ClientProperties.

(** ** The properties on concrete inputs *)

Lemma C_strings_register_dev42 : C_strings register_dev42.
Proof.
  split; [reflexivity|]. apply map_Forall_to_list. vm_compute.
  repeat constructor.
Qed.

Lemma deserialize_serialize_witness :
  ∃ text m' h',
    serialize (H := RefJSON.library) camera_heap register_dev42 = Ok text ∧
    deserialize (H := RefJSON.library) text camera_heap = (Ok m', h') ∧
    same_message h' m' camera_heap register_dev42.
Proof.
  eexists. 
  assert (Hs : serialize (H := RefJSON.library) camera_heap register_dev42 = Ok _)
    by (vm_compute; reflexivity).
  destruct (deserialize_serialize (H := RefJSON.library) camera_heap register_dev42 _
              C_strings_register_dev42 Hs) as (m' & h' & Hd & Hsame).
  - vm_compute. reflexivity.
  - exists m', h'. split; [exact Hs|]. split; [exact Hd | exact Hsame].
Defined.

(** C1 does not hold for every message that [validate()] accepts. The
    heartbeat whose id is [a], NUL, [b] is valid, but its id goes to the
    JSON library through [c_str()]: with every library that reads back the
    object it printed, and so with the reference library, the decoded id is
    [a]. *)
Lemma roundtrip_cuts_id_at_NUL :
  validate ∅ heartbeat_NUL = true ∧
  (∀ (JSON : cJSON_library) (text : string),
      serialize ∅ heartbeat_NUL = Ok text →
      cJSON_Parse (c_str text) = Some (wire_object ∅ heartbeat_NUL) →
      ∃ h', deserialize text ∅ = (Ok (SignalingMessage_new HEARTBEAT "a"), h')) ∧
  (∃ text h',
      serialize (H := RefJSON.library) ∅ heartbeat_NUL = Ok text ∧
      deserialize (H := RefJSON.library) text ∅
      = (Ok (SignalingMessage_new HEARTBEAT "a"), h')) ∧
  id (SignalingMessage_new HEARTBEAT "a") ≠ id heartbeat_NUL.
Proof.
  split; [reflexivity|]. split; [|split].
  - intros JSON text _ Hparse. unfold deserialize. rewrite Hparse.
    eexists. vm_compute. reflexivity.
  - eexists _, _. split; vm_compute; reflexivity.
  - discriminate.
Qed.

Lemma validate_per_type_witness :
  (id register_dev42 = "" → validate camera_heap register_dev42 = false) ∧
  (id register_dev42 ≠ "" →
   (validate camera_heap register_dev42 = true ↔
    payload_requirement (type register_dev42) (payload_tree camera_heap register_dev42))).
Proof.
  apply (validate_per_type camera_heap register_dev42).
  intros p [= <-]. vm_compute. eauto.
Defined.

Lemma sendMessage_not_connected_witness :
  sendMessage (JSON := RefJSON.library) new_client register_dev42 camera_world
  = (Throw NotConnectedError, camera_world).
Proof.
  apply (sendMessage_not_connected (JSON := RefJSON.library) new_client register_dev42
           camera_world).
  reflexivity.
Defined.

Lemma sendMessage_negative_write_witness :
  ∃ text,
    serialize (H := RefJSON.library) camera_heap register_dev42 = Ok text ∧
    sendMessage (JSON := RefJSON.library) connected_client register_dev42 camera_world
    = (Ok tt, written text the_net camera_world).
Proof.
  eexists.
  assert (Hs : serialize (H := RefJSON.library) (heap camera_world) register_dev42 = Ok _)
    by (vm_compute; reflexivity).
  split; [exact Hs|].
  apply (sendMessage_negative_write_returns (JSON := RefJSON.library)
           connected_client register_dev42 camera_world _ (-1)%Z the_net);
    [reflexivity | exact Hs | reflexivity | unfold is_int; lia | lia | vm_compute; reflexivity].
Defined.

(** C6 does not hold as stated: with a transport that gives a connection,
    [connect()] on a client that is not connected returns true and
    [isConnected()] is true in the state it returns, before any signal of
    the transport. *)
Lemma connect_is_connected_on_return :
  isConnected new_client = false ∧
  ∃ c' w', connect new_client camera_world = (true, c', w') ∧ isConnected c' = true.
Proof. split; [reflexivity|]. eexists _, _. split; reflexivity. Qed.

Lemma copy_duplicates_move_transfers_witness :
  (∃ q, SignalingMessage_copy register_dev42 camera_heap
        = ({| type := REGISTER; id := "dev-42"; payload := Some q;
              metadata := metadata register_dev42 |}, <[q := camera]> camera_heap) ∧
        q ≠ 1%positive ∧ camera_heap !! q = None ∧
        (∀ h'', mutation_at 1%positive (<[q := camera]> camera_heap) h'' →
                h'' !! q = Some camera) ∧
        (∀ h'', mutation_at q (<[q := camera]> camera_heap) h'' →
                h'' !! 1%positive = Some camera)) ∧
  ((SignalingMessage_move register_dev42).1 = register_dev42 ∧
   payload (SignalingMessage_move register_dev42).2 = None) ∧
  (∀ (this other : addr) (objs : gmap addr SignalingMessage) (d : SignalingMessage),
      this ≠ other → objs !! this = Some d → objs !! other = Some register_dev42 →
      payload d ≠ Some 1%positive →
      ∃ objs' h' src,
        SignalingMessage_move_assign this other objs camera_heap = (objs', h') ∧
        objs' !! this = Some register_dev42 ∧ objs' !! other = Some src ∧
        payload src = None ∧ h' !! 1%positive = Some camera).
Proof.
  apply (copy_duplicates_move_transfers camera_heap register_dev42 1%positive camera);
    reflexivity.
Defined.

Lemma processIncomingMessage_decode_failure_witness :
  ∃ what,
    processIncomingMessage (JSON := RefJSON.library)
      (setMessageCallback (Some noting_ids) new_client) "not json" camera_world
    = (Ok tt, setMessageCallback (Some noting_ids) new_client,
       fprintf_stderr ("Message deserialization error: " +:+ what +:+ newline) camera_world) ∧
    callback_signaling (JSON := RefJSON.library)
      (setMessageCallback (Some noting_ids) new_client) LWS_CALLBACK_CLIENT_RECEIVE
      "not json" camera_world
    = (Ok 0%Z, setMessageCallback (Some noting_ids) new_client,
       fprintf_stderr ("Message deserialization error: " +:+ what +:+ newline) camera_world).
Proof.
  apply (processIncomingMessage_decode_failure (JSON := RefJSON.library)
           (setMessageCallback (Some noting_ids) new_client) "not json" camera_world).
  eexists. vm_compute. reflexivity.
Defined.

Lemma payload_accessors_copy_witness :
  (∃ q h1 m1,
      setPayload (Some 1%positive) (SignalingMessage_new REGISTER "dev-42") camera_heap
      = (m1, h1) ∧
      m1 = {| type := REGISTER; id := "dev-42"; payload := Some q; metadata := ∅ |} ∧
      q ≠ 1%positive ∧ payload_tree h1 m1 = Some camera ∧
      h1 !! 1%positive = Some camera ∧
      (∀ h'', mutation_at 1%positive h1 h'' → payload_tree h'' m1 = Some camera) ∧
      ∃ r h2,
        getPayload m1 h1 = (Some r, h2) ∧ r ≠ q ∧ h1 !! r = None ∧
        h2 !! r = Some camera ∧ payload_tree h2 m1 = Some camera ∧
        (∀ h'', mutation_at r h2 h'' → payload_tree h'' m1 = Some camera)) ∧
  (∀ m0 : SignalingMessage, payload m0 = None → getPayload m0 camera_heap = (None, camera_heap)).
Proof.
  apply (payload_accessors_copy camera_heap (SignalingMessage_new REGISTER "dev-42")
           1%positive camera); [reflexivity | discriminate].
Defined.

(** The two scenarios of the specification, run with the reference
    library. *)
Example decode_ICE_without_payload :
  ∃ h', deserialize (H := RefJSON.library) (json "{'type':'ICE','id':'x'}") ∅
        = (Ok (SignalingMessage_new ICE "x"), h') ∧
        validate h' (SignalingMessage_new ICE "x") = false.
Proof. eexists. split; vm_compute; reflexivity. Qed.

Example register_dev42_round_trip :
  ∃ text m' h',
    serialize (H := RefJSON.library) camera_heap register_dev42 = Ok text ∧
    deserialize (H := RefJSON.library) text camera_heap = (Ok m', h') ∧
    type m' = REGISTER ∧ id m' = "dev-42" ∧ payload_tree h' m' = Some camera ∧
    validate h' m' = true.
Proof. eexists _, _, _. repeat split; vm_compute; reflexivity. Qed.

(** * Further properties of the sources *)

(** ** Type names *)

(** The two conversion functions are inverse to each other on the fourteen
    names, which are pairwise distinct; every other string, also one that
    differs from a name only in the case of its letters, makes
    [stringToSignalingMessageType] throw [invalid_argument] with the string
    in the message. *)
Theorem type_name_codec (s : string) (t : SignalingMessageType) :
  (stringToSignalingMessageType s = Ok t ↔ s = signalingMessageTypeToString t) ∧
  ((∀ t', s ≠ signalingMessageTypeToString t') ↔
   stringToSignalingMessageType s
   = Throw (invalid_argument ("Unknown message type: " +:+ s))) ∧
  (∀ t', signalingMessageTypeToString t = signalingMessageTypeToString t' → t = t').
Proof.
  split; [|split].
  - split; [apply string_of_type_of_string|]. intros ->. apply type_of_string_of_type.
  - split; [apply type_of_string_throws|].
    intros Hthrow t' ->. by rewrite type_of_string_of_type in Hthrow.
  - intros t' Heq. pose proof (type_of_string_of_type t) as Ht.
    rewrite Heq, type_of_string_of_type in Ht. by injection Ht.
Qed.

(** ** Metadata *)

Lemma addMetadata_fields (k v : string) (m : SignalingMessage) :
  type (addMetadata k v m) = type m ∧ id (addMetadata k v m) = id m ∧
  payload (addMetadata k v m) = payload m.
Proof. done. Qed.

(** [addMetadata] then [getMetadata] reads the value back; another key is
    not affected; the last of two values for a key stays; entries of
    different keys can be added in either order; and a key that was never
    added reads as the empty string, like a key added with the empty
    string. *)
Theorem metadata_add_get (m : SignalingMessage) (k k' v v' : string) :
  getMetadata k (addMetadata k v m) = v ∧
  (k ≠ k' → getMetadata k' (addMetadata k v m) = getMetadata k' m) ∧
  addMetadata k v' (addMetadata k v m) = addMetadata k v' m ∧
  (k ≠ k' →
   addMetadata k' v' (addMetadata k v m) = addMetadata k v (addMetadata k' v' m)) ∧
  (metadata m !! k = None → getMetadata k m = "") ∧
  getMetadata k (addMetadata k "" m) = "".
Proof.
  unfold getMetadata, addMetadata. simpl. repeat split.
  - by rewrite lookup_insert_eq.
  - intros Hne. by rewrite lookup_insert_ne.
  - by rewrite insert_insert_eq.
  - intros Hne. f_equal. by apply insert_insert_ne.
  - by intros ->.
  - by rewrite lookup_insert_eq.
Qed.

Lemma metadata_of_members_lookup (members : list (string * cJSON))
    (md : gmap string string) (k : string) :
  metadata_of_members members md !! k
  = match last_string_member members k with
    | Some s => Some s
    | None => md !! k
    end.
Proof.
  unfold metadata_of_members. revert md.
  induction members as [|[name item] rest IH]; intros md; [done|].
  cbn [foldl last_string_member]. rewrite IH.
  destruct (last_string_member rest k) as [s|]; [done|]. simpl.
  destruct (String.eqb_spec k name) as [->|Hne].
  - destruct item; try done. by rewrite lookup_insert_eq.
  - destruct item; try done. by rewrite lookup_insert_ne.
Qed.

Lemma last_string_member_elem (members : list (string * cJSON)) (k s : string) :
  last_string_member members k = Some s → (k, cJSON_String s) ∈ members.
Proof.
  induction members as [|[name item] rest IH]; [done|]. simpl.
  destruct (last_string_member rest k) as [s'|].
  - intros [= ->]. right. by apply IH.
  - destruct (String.eqb_spec k name) as [->|_]; [|done].
    destruct item; try done. intros [= ->]. by left.
Qed.

(** The metadata of a decoded message: under each key, the value of the
    last member of the ["metadata"] object that has this name and is a
    string. Members that are not strings are skipped, and a ["metadata"]
    field that is not an object gives no metadata at all. *)
Theorem decoded_metadata_last_string `{cJSON_library}
    (text : string) (h h' : gmap loc cJSON) (m : SignalingMessage) (root : cJSON)
    (k : string) :
  deserialize text h = (Ok m, h') →
  cJSON_Parse (c_str text) = Some root →
  metadata m !! k
  = match cJSON_GetObjectItemCaseSensitive root "metadata" with
    | Some (cJSON_Object members) => last_string_member members k
    | _ => None
    end.
Proof.
  unfold deserialize. intros Hd Hparse. rewrite Hparse in Hd.
  apply deserialize_root_ok_inv in Hd as (_ & _ & -> & _).
  unfold decoded_metadata.
  destruct (cJSON_GetObjectItemCaseSensitive root "metadata")
    as [[| | | | | |members|]|]; try done.
  rewrite metadata_of_members_lookup.
  by destruct (last_string_member members k).
Qed.

(** ** Trees allocated and freed *)

(** A text that decodes was parsed to a tree, and the heap after the
    decoding is fixed by the ["payload"] field of that tree. When the tree
    has the field, two trees equal to the field are allocated at two new
    locations: the message points to one of them; the other, the argument
    made for [setPayload], is referred to by nothing, and once the decoded
    message is destroyed the heap is the heap before the decoding with
    that one tree more. When the tree has no ["payload"] field, the
    message has no payload and the heap is as it was. *)
Theorem deserialize_leaves_a_tree `{cJSON_library}
    (text : string) (h h' : gmap loc cJSON) (m : SignalingMessage) :
  deserialize text h = (Ok m, h') →
  ∃ root,
    cJSON_Parse (c_str text) = Some root ∧
    match cJSON_GetObjectItemCaseSensitive root "payload" with
    | Some payloadJson =>
        ∃ q tmp,
          payload m = Some q ∧ tmp ≠ q ∧ h !! q = None ∧ h !! tmp = None ∧
          h' = <[q := payloadJson]> (<[tmp := payloadJson]> h) ∧
          SignalingMessage_destroy m h' = <[tmp := payloadJson]> h ∧
          size (SignalingMessage_destroy m h') = S (size h)
    | None => payload m = None ∧ h' = h
    end.
Proof.
  unfold deserialize. destruct (cJSON_Parse (c_str text)) as [root|]; [|done].
  intros (_ & _ & _ & Hp)%deserialize_root_ok_inv. exists root. split; [done|].
  destruct (cJSON_GetObjectItemCaseSensitive root "payload") as [payloadJson|]; [|done].
  destruct Hp as (tmp & q & Htmp & Hq & Hne & Hpq & ->).
  exists q, tmp. repeat split; try done.
  - unfold SignalingMessage_destroy, cJSON_Delete. rewrite Hpq.
    apply delete_insert_id. by rewrite lookup_insert_ne.
  - unfold SignalingMessage_destroy, cJSON_Delete. rewrite Hpq.
    rewrite delete_insert_id by by rewrite lookup_insert_ne.
    by apply map_size_insert_None.
Qed.

(** The copy equals the original field for field and owns its payload. *)
Lemma SignalingMessage_copy_same (m : SignalingMessage) (h : gmap loc cJSON) :
  same_message (SignalingMessage_copy m h).2 (SignalingMessage_copy m h).1 h m ∧
  owns_payload (SignalingMessage_copy m h).2 (SignalingMessage_copy m h).1.
Proof.
  unfold SignalingMessage_copy, same_message, owns_payload, payload_tree.
  destruct (payload m) as [p|] eqn:Hp; [|done].
  destruct (h !! p) as [t|] eqn:Ht.
  - destruct (cJSON_Duplicate_live p t h Ht) as (q & -> & Hq & Hne). simpl.
    rewrite lookup_insert_eq. repeat split.
    intros ? [= <-]. rewrite lookup_insert_eq. eauto.
  - unfold cJSON_Duplicate. rewrite Ht. done.
Qed.

(** A copy followed by the destruction of the copy gives the heap back as
    it was, whether or not the message has a payload. In between, the copy
    equals the original field for field, its payload pointer is live or
    null, and every tree of the heap is still there. *)
Theorem copy_then_destroy (m : SignalingMessage) (h : gmap loc cJSON) :
  SignalingMessage_destroy (SignalingMessage_copy m h).1 (SignalingMessage_copy m h).2 = h ∧
  same_message (SignalingMessage_copy m h).2 (SignalingMessage_copy m h).1 h m ∧
  owns_payload (SignalingMessage_copy m h).2 (SignalingMessage_copy m h).1 ∧
  h ⊆ (SignalingMessage_copy m h).2.
Proof.
  split; [|split; [apply SignalingMessage_copy_same|split;
                   [apply SignalingMessage_copy_same|]]];
    unfold SignalingMessage_copy, SignalingMessage_destroy, cJSON_Delete;
    destruct (payload m) as [p|] eqn:Hp; try done;
    (destruct (h !! p) as [t|] eqn:Ht;
     [destruct (cJSON_Duplicate_live p t h Ht) as (q & -> & Hq & Hne); simpl
     |unfold cJSON_Duplicate; rewrite Ht; done]).
  - by apply delete_insert_id.
  - by apply insert_subseteq.
Qed.




(** ** What survives encoding and decoding *)

(** For every message, also one with NUL characters in its strings: when
    [serialize] gives a text that the library parses back to the object
    that was printed, decoding succeeds; the type and the payload tree are
    those of the message, the id is the id up to its first NUL, every
    decoded metadata entry is an entry of the message with key and value
    cut at their first NUL, and empty metadata decodes to empty
    metadata. *)
Theorem deserialize_serialize_up_to_NUL `{cJSON_library}
    (h : gmap loc cJSON) (m : SignalingMessage) (text : string) :
  serialize h m = Ok text →
  cJSON_Parse (c_str text) = Some (wire_object h m) →
  ∃ m' h',
    deserialize text h = (Ok m', h') ∧
    type m' = type m ∧ id m' = c_str (id m) ∧
    payload_tree h' m' = payload_tree h m ∧
    (∀ k' v', metadata m' !! k' = Some v' →
              ∃ k v, metadata m !! k = Some v ∧ k' = c_str k ∧ v' = c_str v) ∧
    (metadata m = ∅ → metadata m' = ∅).
Proof.
  intros _ Hparse. unfold deserialize. rewrite Hparse.
  destruct (deserialize_root_wire_object h m) as (m' & h' & -> & Ht & Hi & Hp & Hm).
  exists m', h'. split; [done|]. repeat split; try done.
  - intros k' v'. rewrite Hm. unfold decoded_metadata.
    destruct (wire_object_fields h m) as (_ & _ & _ & ->).
    destruct (decide (metadata m = ∅)); [done|].
    rewrite metadata_of_members_lookup.
    destruct (last_string_member _ k') as [s|] eqn:Hl; [|done].
    intros [= ->]. apply last_string_member_elem in Hl.
    unfold metadata_members in Hl. apply list_elem_of_fmap in Hl as ([k v] & [= -> ->] & Hin).
    exists k, v. split; [|done]. by apply elem_of_map_to_list.
  - intros Hempty. rewrite Hm. unfold decoded_metadata.
    destruct (wire_object_fields h m) as (_ & _ & _ & ->).
    by rewrite decide_True.
Qed.

(** Whether a message is valid depends on its id, its type and its payload
    tree only: two messages that own their payloads and are equal field for
    field have the same validity, whatever their payload pointers and the
    rest of their heaps. So a copy is valid exactly when the original is. *)
Theorem validate_same_message (h h' : gmap loc cJSON) (m m' : SignalingMessage) :
  owns_payload h m → owns_payload h' m' → same_message h' m' h m →
  validate h' m' = validate h m ∧
  validate (SignalingMessage_copy m h).2 (SignalingMessage_copy m h).1 = validate h m.
Proof.
  assert (Hgen : ∀ h1 h2 m1 m2,
             owns_payload h1 m1 → owns_payload h2 m2 → same_message h2 m2 h1 m1 →
             validate h2 m2 = validate h1 m1).
  { intros h1 h2 m1 m2 H1 H2 (Ht & Hi & Hp & _).
    unfold validate, payload_item. rewrite Ht, Hi.
    unfold payload_tree, owns_payload in *.
    destruct (payload m1) as [p1|], (payload m2) as [p2|]; simpl.
    - rewrite Hp. done.
    - destruct (H1 p1 eq_refl) as [t Hp1]. congruence.
    - destruct (H2 p2 eq_refl) as [t Hp2]. congruence.
    - done. }
  intros Hm Hm' Hsame. split; [by apply Hgen|].
  destruct (SignalingMessage_copy_same m h) as [Hs Ho].
  by apply Hgen.
Qed.

(** ** The queue of the client *)

(** What a frame decodes to does not depend on the heap it is decoded in,
    and the decoded message owns its payload. *)
Lemma deserialize_ok_view `{cJSON_library}
    (data : string) (h h' : gmap loc cJSON) (m : SignalingMessage) :
  deserialize data h = (Ok m, h') →
  owns_payload h' m ∧ decoded_view data = Some (message_view h' m).
Proof.
  unfold decoded_view, deserialize.
  destruct (cJSON_Parse (c_str data)) as [root|]; [|done]. intros Hd.
  pose proof (deserialize_root_throws root ∅) as Hthrows.
  destruct (deserialize_root root ∅) as [[m0|e] h0] eqn:E0.
  - apply deserialize_root_ok_inv in Hd as (Ht & Hi & Hm & Hp).
    apply deserialize_root_ok_inv in E0 as (Ht0 & Hi0 & Hm0 & Hp0).
    rewrite Ht in Ht0. rewrite Hi in Hi0.
    injection Ht0 as Ht0. injection Hi0 as Hi0.
    assert (type m = type m0) as Htype.
    { pose proof (type_of_string_of_type (type m)) as Hx.
      rewrite Ht0, type_of_string_of_type in Hx. by injection Hx. }
    unfold message_view, owns_payload, payload_tree.
    rewrite Htype, Hi0, Hm, Hm0.
    destruct (cJSON_GetObjectItemCaseSensitive root "payload") as [t|].
    + destruct Hp as (tmp & q & _ & _ & _ & -> & ->).
      destruct Hp0 as (tmp0 & q0 & _ & _ & _ & -> & ->).
      rewrite !lookup_insert_eq. split; [|done].
      intros ? [= <-]. rewrite lookup_insert_eq. eauto.
    + destruct Hp as [-> ->], Hp0 as [-> ->]. done.
  - exfalso. assert (Hd' : throws (deserialize_root root h).1).
    { apply deserialize_root_throws, Hthrows. simpl. by exists e. }
    rewrite Hd in Hd'. by destruct Hd'.
Qed.

Lemma deserialize_throw_view `{cJSON_library}
    (data : string) (h h' : gmap loc cJSON) (e : exception) :
  deserialize data h = (Throw e, h') → decoded_view data = None.
Proof.
  unfold decoded_view, deserialize.
  destruct (cJSON_Parse (c_str data)) as [root|]; [|done]. intros Hd.
  assert (Hd' : throws (deserialize_root root ∅).1).
  { apply deserialize_root_throws, (deserialize_root_throws root h).
    rewrite Hd. by exists e. }
  destruct (deserialize_root root ∅) as [[m0|e0] h0]; [|done].
  by destruct Hd'.
Qed.

Section MoreClientProperties.
Context `{JSON : cJSON_library} `{WS : libwebsockets} {App : Type}.
Implicit Types (c : SignalingClient App) (w : world App) (message : SignalingMessage).

(** One frame on a client without handler: a decoded message is copied to
    the back of the queue, anything else leaves the client as it is; the
    dispatch returns normally. *)
Lemma processIncomingMessage_queues c data w :
  messageCallback c = None →
  ∃ w',
    match decoded_view data with
    | Some v =>
        ∃ copy, processIncomingMessage c data w = (Ok tt, push_incoming copy c, w') ∧
                message_view (heap w') copy = v ∧ owns_payload (heap w') copy
    | None => processIncomingMessage c data w = (Ok tt, c, w')
    end.
Proof.
  intros Hcb. unfold processIncomingMessage. rewrite Hcb.
  destruct (deserialize data (heap w)) as [[message|e] h1] eqn:E.
  - pose proof (deserialize_ok_view _ _ _ _ E) as [Hown ->].
    pose proof (SignalingMessage_copy_same message h1) as [Hsame Hcopy].
    destruct (SignalingMessage_copy message h1) as [copy h2] eqn:Ec. simpl in *.
    eexists. exists copy. split; [done|]. simpl.
    assert (Hkeep : ∀ p, payload copy = Some p →
               SignalingMessage_destroy message h2 !! p = h2 !! p).
    { intros p Hp. unfold SignalingMessage_destroy, cJSON_Delete.
      destruct (payload message) as [q|] eqn:Hq; [|done].
      rewrite lookup_delete_ne; [done|]. intros <-.
      revert Ec. unfold SignalingMessage_copy. rewrite Hq.
      destruct (Hown q Hq) as [t Ht].
      destruct (cJSON_Duplicate_live q t h1 Ht) as (q' & -> & Hq' & Hne).
      intros [= <- <-]. simpl in Hp. congruence. }
    destruct Hsame as (Ht & Hi & Hp & Hm).
    unfold message_view, owns_payload, payload_tree in *.
    rewrite Ht, Hi, Hm, <- Hp.
    destruct (payload copy) as [p|]; [|done].
    rewrite (Hkeep p eq_refl). split; [done|].
    intros ? [= <-]. rewrite (Hkeep p eq_refl). by apply Hcopy.
  - rewrite (deserialize_throw_view _ _ _ _ E).
    apply deserialize_throw_inv in E as (-> & _ & [what Hwhat]).
    unfold catch_std_exception. rewrite Hwhat. by eexists.
Qed.

(** The messages of the queue keep what they show while a frame is
    dispatched. *)
Lemma message_view_frame c data w (m : SignalingMessage) :
  owns_payload (heap w) m →
  owns_payload (heap (processIncomingMessage c data w).2) m ∧
  message_view (heap (processIncomingMessage c data w).2) m = message_view (heap w) m.
Proof.
  intros Hown. unfold message_view, owns_payload, payload_tree in *.
  destruct (payload m) as [p|]; [|done].
  destruct (Hown p eq_refl) as [t Ht].
  pose proof (processIncomingMessage_heap_frame c data w p t Ht) as Hp.
  rewrite Hp, Ht. split; [|done]. intros ? [= <-]. rewrite Hp. eauto.
Qed.

(** Without a handler the queue is first in, first out: after any run of
    frames it holds the messages it held before, in their order and showing
    what they showed, followed by the messages of the frames that decode, in
    the order of arrival, each with the type, id, metadata and payload tree
    its frame spells out. Frames that do not decode add nothing, and the
    run ends normally. *)
Theorem queue_is_fifo c (datas : list string) w :
  messageCallback c = None →
  Forall (owns_payload (heap w)) (incomingMessages c) →
  ∃ c' w',
    receive_frames c datas w = (Ok tt, c', w') ∧
    messageCallback c' = None ∧
    message_view (heap w') <$> incomingMessages c'
    = ((message_view (heap w) <$> incomingMessages c) ++ omap decoded_view datas)%list ∧
    Forall (owns_payload (heap w')) (incomingMessages c').
Proof.
  revert c w. induction datas as [|data rest IH]; intros c w Hcb Hown.
  - exists c, w. simpl. by rewrite (right_id_L [] (++)).
  - destruct (processIncomingMessage_queues c data w Hcb) as [w1 Hstep].
    assert (Hold : Forall (owns_payload (heap (processIncomingMessage c data w).2))
                     (incomingMessages c) ∧
                   message_view (heap (processIncomingMessage c data w).2)
                     <$> incomingMessages c
                   = message_view (heap w) <$> incomingMessages c).
    { split.
      - eapply Forall_impl; [exact Hown|]. intros m Hm.
        by apply (message_view_frame c data w m).
      - apply Forall_fmap_ext_1. eapply Forall_impl; [exact Hown|]. intros m Hm.
        by apply (message_view_frame c data w m). }
    cbn [receive_frames omap list_omap].
    destruct (decoded_view data) as [v|] eqn:Ev.
    + destruct Hstep as (copy & Hstep & Hview & Hcopy).
      rewrite Hstep in Hold. rewrite Hstep. simpl in Hold. destruct Hold as [Hold1 Hold2].
      destruct (IH (push_incoming copy c) w1) as (c' & w' & -> & Hcb' & Hq & Hown');
        [done| |].
      { simpl. apply Forall_app. split; [done|]. by constructor. }
      exists c', w'. split; [done|]. split; [done|]. split; [|done].
      rewrite Hq. simpl. rewrite fmap_app, Hold2. simpl. rewrite Hview.
      by rewrite <- (assoc_L (++)).
    + rewrite Hstep in Hold. rewrite Hstep. simpl in Hold. destruct Hold as [Hold1 Hold2].
      destruct (IH c w1) as (c' & w' & -> & Hcb' & Hq & Hown'); [done|done|].
      exists c', w'. split; [done|]. split; [done|]. split; [|done].
      by rewrite Hq, Hold2.
Qed.

(** With a handler registered that does not throw, the handler is run once
    for each frame that decodes, in the order of arrival and with the type,
    id, metadata and payload tree the frame spells out; it is not run for a
    frame that does not decode; and the client stays as it is. *)
Theorem handler_sees_frames_in_order c
    (f : SignalingMessageType * string * gmap string string * option cJSON → App → App)
    (datas : list string) w :
  messageCallback c = Some (λ h m a, (None, f (message_view h m) a)) →
  ∃ w',
    receive_frames c datas w = (Ok tt, c, w') ∧
    app w' = foldl (λ a v, f v a) (app w) (omap decoded_view datas).
Proof.
  intros Hcb. revert w. induction datas as [|data rest IH]; intros w.
  - by exists w.
  - cbn [receive_frames omap list_omap].
    assert (Hstep : ∃ w1, processIncomingMessage c data w = (Ok tt, c, w1) ∧
                          app w1 = match decoded_view data with
                                   | Some v => f v (app w)
                                   | None => app w
                                   end).
    { unfold processIncomingMessage. rewrite Hcb.
      destruct (deserialize data (heap w)) as [[message|e] h1] eqn:E.
      - pose proof (deserialize_ok_view _ _ _ _ E) as [_ ->]. by eexists.
      - rewrite (deserialize_throw_view _ _ _ _ E).
        apply deserialize_throw_inv in E as (-> & _ & [what Hwhat]).
        unfold catch_std_exception. rewrite Hwhat. by eexists. }
    destruct Hstep as (w1 & -> & Happ).
    destruct (IH w1) as (w' & -> & Hfold). exists w'. split; [done|].
    rewrite Hfold, Happ. by destruct (decoded_view data).
Qed.

(** ** Exceptions of the handler *)

(** When the handler throws while it is given a decoded message, the
    message is destroyed by the unwinding. An exception derived from
    [std::exception] is caught by the dispatch, written to the error stream
    as a deserialization error with its [what()], and the dispatch returns
    normally; any other exception leaves the dispatch and the callback of
    the transport. In both cases the client is as before. *)
Theorem handler_exception_is_logged c data w
    (callback : MessageCallback App) message (h1 : gmap loc cJSON) (e : exception) (a : App) :
  messageCallback c = Some callback →
  deserialize data (heap w) = (Ok message, h1) →
  callback h1 message (app w) = (Some e, a) →
  (∀ what, std_exception_what e = Some what →
     processIncomingMessage c data w
     = (Ok tt, c,
        fprintf_stderr ("Message deserialization error: " +:+ what +:+ newline)
          (with_app a (with_heap (SignalingMessage_destroy message h1) w)))) ∧
  (std_exception_what e = None →
     processIncomingMessage c data w
     = (Throw e, c, with_app a (with_heap (SignalingMessage_destroy message h1) w)) ∧
     callback_signaling c LWS_CALLBACK_CLIENT_RECEIVE data w
     = (Throw e, c, with_app a (with_heap (SignalingMessage_destroy message h1) w))).
Proof.
  intros Hcb Hd Hthrow. split.
  - intros what Hwhat. unfold processIncomingMessage.
    rewrite Hd, Hcb, Hthrow. unfold catch_std_exception. by rewrite Hwhat.
  - intros Hwhat.
    assert (Hp : processIncomingMessage c data w
                 = (Throw e, c,
                    with_app a (with_heap (SignalingMessage_destroy message h1) w))).
    { unfold processIncomingMessage.
      rewrite Hd, Hcb, Hthrow. unfold catch_std_exception. by rewrite Hwhat. }
    split; [done|]. unfold callback_signaling. by rewrite Hp.
Qed.

(** ** The callback of the transport *)

(** The dispatch throws only what the handler threw and the dispatch did
    not catch. *)
Lemma processIncomingMessage_throw_inv c data w (e : exception) c' w' :
  processIncomingMessage c data w = (Throw e, c', w') →
  std_exception_what e = None ∧
  ∃ callback message h1 a,
    messageCallback c = Some callback ∧
    deserialize data (heap w) = (Ok message, h1) ∧
    callback h1 message (app w) = (Some e, a).
Proof.
  unfold processIncomingMessage.
  destruct (deserialize data (heap w)) as [[message|e0] h1] eqn:E.
  - destruct (messageCallback c) as [callback|]; [|by destruct (SignalingMessage_copy _ _)].
    destruct (callback h1 message (app w)) as [[e1|] a] eqn:Ecb; [|done].
    unfold catch_std_exception. destruct (std_exception_what e1) eqn:E1; [done|].
    intros [= <- <- <-]. split; [done|]. by exists callback, message, h1, a.
  - apply deserialize_throw_inv in E as (-> & _ & [what Hwhat]).
    unfold catch_std_exception. by rewrite Hwhat.
Qed.

(** Whatever the reason and the data, the callback registered with the
    transport returns 0 when it returns: it never asks the library to
    close the connection. An exception leaves it only on a received frame
    that decodes, with a handler registered, and is then an exception of
    the handler that is not a [std::exception]; without a handler, and on
    a frame that does not decode, it always returns. For a reason that is
    none of the four it handles it does nothing. *)
Theorem callback_signaling_returns_zero c (reason : lws_callback_reasons) data w :
  match (callback_signaling c reason data w).1.1 with
  | Ok r => r = 0%Z
  | Throw e =>
      reason = LWS_CALLBACK_CLIENT_RECEIVE ∧ std_exception_what e = None ∧
      ∃ callback message h1 a,
        messageCallback c = Some callback ∧
        deserialize data (heap w) = (Ok message, h1) ∧
        callback h1 message (app w) = (Some e, a)
  end ∧
  callback_signaling c LWS_CALLBACK_other data w = (Ok 0%Z, c, w).
Proof.
  split; [|done].
  destruct reason; try done. unfold callback_signaling.
  pose proof (processIncomingMessage_throw_inv c data w) as Hthrow.
  destruct (processIncomingMessage c data w) as [[[[]|e] c'] w'] eqn:Hp; simpl in *;
    [done|].
  split; [done|]. by eapply Hthrow.
Qed.

(** ** The outcomes of sending *)

(** [sendMessage] throws the not-connected error exactly when the client
    is not connected. On a connected client the message is encoded first:
    if that fails, the error of the encoding is thrown and nothing is handed
    to the transport; otherwise the whole text is handed to the transport
    once, also when the call then throws because too little was accepted.
    The heap, the handler's state and the output streams are never
    changed. *)
Theorem sendMessage_outcomes c message w :
  ((sendMessage c message w).1 = Throw NotConnectedError ↔ isConnected c = false) ∧
  (isConnected c = true →
   match serialize (heap w) message with
   | Ok text =>
       frames (sendMessage c message w).2 = (frames w ++ [text])%list ∧
       ((sendMessage c message w).1 = Ok tt ∨
        (sendMessage c message w).1 = Throw SendIncompleteError)
   | Throw e => sendMessage c message w = (Throw e, w)
   end) ∧
  heap (sendMessage c message w).2 = heap w ∧
  app (sendMessage c message w).2 = app w ∧
  stderr (sendMessage c message w).2 = stderr w ∧
  stdout (sendMessage c message w).2 = stdout w.
Proof.
  unfold sendMessage, isConnected.
  destruct (connected c); simpl.
  - unfold serialize.
    destruct (cJSON_Print (wire_object (heap w) message)) as [text|]; simpl.
    + destruct (lws_write (net w) (wsi c) text) as [n net'].
      destruct (int_lt_size_t n (String.length text)); simpl;
        (split; [split; discriminate|]); repeat split; eauto.
    + split; [split; discriminate|]. done.
  - split; [done|]. split; [discriminate|done].
Qed.

End MoreClientProperties.

(** ** Disconnecting *)

Section Disconnect.
Context `{JSON : cJSON_library} `{CL : libwebsockets_closing} {App : Type}.
Implicit Types (c : SignalingClient App) (w : world App).

(** [disconnect()] on a client that is not connected does nothing at all:
    also the running flag of the event loop and the connection handle stay
    as they are. On a connected client it clears the running flag, the
    handle and the connected flag, and tells the transport the reason of
    the close when there was a handle. It never touches the handler, the
    queue, the heap or the frames written; a second call changes nothing
    more; and afterwards [sendMessage] throws the not-connected error
    without a write. *)
Theorem disconnect_clears_connection c w :
  (isConnected c = false → disconnect c w = (c, w)) ∧
  (isConnected c = true →
   wsi (disconnect c w).1 = None ∧ running (disconnect c w).1 = false ∧
   net (disconnect c w).2
   = match wsi c with
     | Some l => lws_close_reason (net w) l
     | None => net w
     end) ∧
  isConnected (disconnect c w).1 = false ∧
  messageCallback (disconnect c w).1 = messageCallback c ∧
  incomingMessages (disconnect c w).1 = incomingMessages c ∧
  heap (disconnect c w).2 = heap w ∧ frames (disconnect c w).2 = frames w ∧
  disconnect (disconnect c w).1 (disconnect c w).2 = disconnect c w ∧
  (∀ message w', sendMessage (disconnect c w).1 message w' = (Throw NotConnectedError, w')).
Proof.
  unfold disconnect, isConnected, sendMessage.
  destruct (connected c) eqn:Hc; simpl.
  - destruct (wsi c) as [l|] eqn:Hw; simpl; repeat split; done.
  - rewrite Hc. simpl. repeat split; done.
Qed.

End Disconnect.

(** ** The senders of [main.cpp] *)

Section DeviceManagerProperties.
Context `{JSON : cJSON_library} `{WS : libwebsockets} {App : Type}.
Implicit Types (c : SignalingClient App) (w : world App) (config : DeviceConfig).

Lemma sendMessage_heap c (msg : SignalingMessage) w :
  heap (sendMessage c msg w).2 = heap w.
Proof.
  unfold sendMessage. destruct (connected c); simpl; [|done].
  destruct (serialize (heap w) msg) as [text|e]; [|done].
  destruct (lws_write (net w) (wsi c) text) as [n net'].
  by destruct (int_lt_size_t n (String.length text)).
Qed.

(** The common end of the three senders. The message [msg] holds the copy
    [q] of the tree [t] that the sender built at [p]. *)
Lemma send_and_free_outcome c (msg : SignalingMessage) (p q : loc) (t : cJSON) w :
  payload msg = Some q → p ≠ q → heap w !! p = None → heap w !! q = None →
  sender_outcome (wire_object (<[q := t]> (<[p := t]> (heap w))) msg) t c w
    (send_and_free c msg p (with_heap (<[q := t]> (<[p := t]> (heap w))) w)).
Proof.
  intros Hq Hne Hp Hqf. unfold send_and_free, sender_outcome.
  set (hs := <[q := t]> (<[p := t]> (heap w))).
  pose proof (sendMessage_heap c msg (with_heap hs w)) as Hheap.
  assert (Hok : SignalingMessage_destroy msg (cJSON_Delete p hs) = heap w).
  { unfold SignalingMessage_destroy, cJSON_Delete. rewrite Hq. subst hs.
    rewrite delete_insert_ne by done. rewrite (delete_insert_id (heap w) p) by done.
    by apply delete_insert_id. }
  assert (Hthrow : SignalingMessage_destroy msg hs = <[p := t]> (heap w)).
  { unfold SignalingMessage_destroy, cJSON_Delete. rewrite Hq. subst hs.
    apply delete_insert_id. by rewrite lookup_insert_ne. }
  assert (Hleak : ∃ p', heap w !! p' = None ∧ <[p := t]> (heap w) = <[p' := t]> (heap w))
    by eauto.
  revert Hheap. unfold sendMessage, isConnected, serialize.
  destruct (connected c); simpl;
    [destruct (cJSON_Print (wire_object hs msg)) as [text|]; simpl;
     [destruct (lws_write (net w) (wsi c) text) as [n net'];
      destruct (int_lt_size_t n (String.length text)); simpl|]|];
    intros _; rewrite ?Hok, ?Hthrow;
    repeat split; try done; try discriminate; eauto;
    try (by intros [e He]); by intros _.
Qed.

(** Building an object at a fresh place, and giving a copy to a message
    that has no payload. *)
Lemma built_payload_copied (msg : SignalingMessage) (t : cJSON) (h : gmap loc cJSON) :
  payload msg = None →
  ∃ q, fresh (dom h) ≠ q ∧ h !! fresh (dom h) = None ∧ h !! q = None ∧
       setPayload (Some (fresh (dom h))) msg (<[fresh (dom h) := t]> h)
       = ({| type := type msg; id := id msg; payload := Some q;
             metadata := metadata msg |},
          <[q := t]> (<[fresh (dom h) := t]> h)).
Proof.
  intros Hnull.
  destruct (decoded_payload_fresh t msg h Hnull) as (tmp & q & Htmp & Hq & Hne & Hd & Hs).
  unfold cJSON_Duplicate_item in Hd. injection Hd as Hd _. subst tmp.
  exists q. done.
Qed.

Lemma registration_metadata_members :
  metadata_members (<["stream_count" := "1"]> (<["version" := "1.0.0"]> ∅))
  = [("stream_count", cJSON_String "1"); ("version", cJSON_String "1.0.0")].
Proof. vm_compute. reflexivity. Qed.

Lemma request_id_metadata_members (rid : string) :
  metadata_members (<["request_id" := rid]> ∅) = [("request_id", cJSON_String (c_str rid))].
Proof.
  unfold metadata_members. rewrite insert_empty, map_to_list_singleton. done.
Qed.

(** The wire object of a message that holds the tree [t]. *)
Lemma wire_object_with_payload (h : gmap loc cJSON) (m : SignalingMessage) (q : loc)
    (t : cJSON) :
  payload m = Some q → h !! q = Some t →
  wire_object h m
  = cJSON_Object
      ([("type", cJSON_String (signalingMessageTypeToString (type m)));
        ("id", cJSON_String (c_str (id m))); ("payload", t)]
       ++ (if decide (metadata m = ∅) then []
           else [("metadata", cJSON_Object (metadata_members (metadata m)))])).
Proof.
  intros Hq Ht. unfold wire_object, payload_tree. by rewrite Hq, Ht, c_str_type_name.
Qed.

(** Each sender builds its tree at a fresh place [p], gives the copy [q] to
    its message and ends in [send_and_free]. *)
Lemma sendRegistration_built config c w :
  ∃ p q msg,
    payload msg = Some q ∧ p ≠ q ∧ heap w !! p = None ∧ heap w !! q = None ∧
    wire_object (<[q := registration_payload config]>
                   (<[p := registration_payload config]> (heap w))) msg
    = registration_object config ∧
    sendRegistration config c w
    = send_and_free c msg p
        (with_heap (<[q := registration_payload config]>
                      (<[p := registration_payload config]> (heap w))) w).
Proof.
  unfold sendRegistration, cJSON_CreateObject, cJSON_AddStringToObject.
  rewrite !alter_insert_eq.
  change (add_member _ _ (add_member _ _ (add_member _ _ (cJSON_Object []))))
    with (registration_payload config).
  destruct (built_payload_copied (SignalingMessage_new REGISTER (deviceId config))
              (registration_payload config) (heap w) eq_refl)
    as (q & Hne & Hp & Hq & ->).
  cbn [type id metadata SignalingMessage_new].
  eexists _, q, _. split; [|split; [exact Hne|split; [exact Hp|split; [exact Hq|]]]];
    [|split; [|reflexivity]]; [done|].
  rewrite (wire_object_with_payload _ _ q (registration_payload config));
    [|done|apply lookup_insert_eq].
  cbn [metadata addMetadata type id].
  rewrite decide_False by apply insert_non_empty.
  by rewrite registration_metadata_members.
Qed.

Lemma sendHeartbeat_built (uptime temperature : float) config c w :
  ∃ p q msg,
    payload msg = Some q ∧ p ≠ q ∧ heap w !! p = None ∧ heap w !! q = None ∧
    wire_object (<[q := heartbeat_payload uptime temperature]>
                   (<[p := heartbeat_payload uptime temperature]> (heap w))) msg
    = heartbeat_object uptime temperature config ∧
    sendHeartbeat uptime temperature config c w
    = send_and_free c msg p
        (with_heap (<[q := heartbeat_payload uptime temperature]>
                      (<[p := heartbeat_payload uptime temperature]> (heap w))) w).
Proof.
  unfold sendHeartbeat, cJSON_CreateObject, cJSON_AddNumberToObject.
  rewrite !alter_insert_eq.
  change (add_member _ _ (add_member _ _ (cJSON_Object [])))
    with (heartbeat_payload uptime temperature).
  destruct (built_payload_copied (SignalingMessage_new HEARTBEAT (deviceId config))
              (heartbeat_payload uptime temperature) (heap w) eq_refl)
    as (q & Hne & Hp & Hq & ->).
  cbn [type id metadata SignalingMessage_new].
  eexists _, q, _. split; [|split; [exact Hne|split; [exact Hp|split; [exact Hq|]]]];
    [|split; [|reflexivity]]; [done|].
  rewrite (wire_object_with_payload _ _ q (heartbeat_payload uptime temperature));
    [|done|apply lookup_insert_eq].
  cbn [metadata type id]. by rewrite decide_True.
Qed.

Lemma handleStreamRequest_built config c (request : SignalingMessage) w :
  ∃ p q msg,
    payload msg = Some q ∧ p ≠ q ∧ heap w !! p = None ∧ heap w !! q = None ∧
    wire_object (<[q := response_payload config]>
                   (<[p := response_payload config]> (heap w))) msg
    = response_object config request ∧
    handleStreamRequest config c request w
    = send_and_free c msg p
        (with_heap (<[q := response_payload config]>
                      (<[p := response_payload config]> (heap w))) w).
Proof.
  unfold handleStreamRequest, cJSON_CreateObject, cJSON_AddStringToObject, getId.
  rewrite !alter_insert_eq.
  change (add_member _ _ (add_member _ _ (cJSON_Object [])))
    with (response_payload config).
  destruct (built_payload_copied
              (addMetadata "request_id" (id request)
                 (SignalingMessage_new RESPONSE (deviceId config)))
              (response_payload config) (heap w) eq_refl)
    as (q & Hne & Hp & Hq & ->).
  cbn [type id metadata SignalingMessage_new addMetadata].
  eexists _, q, _. split; [|split; [exact Hne|split; [exact Hp|split; [exact Hq|]]]];
    [|split; [|reflexivity]]; [done|].
  rewrite (wire_object_with_payload _ _ q (response_payload config));
    [|done|apply lookup_insert_eq].
  cbn [metadata type id].
  rewrite decide_False by apply insert_non_empty.
  by rewrite request_id_metadata_members.
Qed.

(** [sendRegistration()] prints the registration object: type REGISTER, the
    device id, the payload with the device type, MAC address and serial
    number, and the two metadata entries. It throws what [sendMessage]
    throws. When it returns normally the heap is as it was before the call;
    when it throws, the payload tree it built stays in the heap, since the
    call that frees it comes after [sendMessage]. *)
Theorem sendRegistration_outcome config c w :
  sender_outcome (registration_object config) (registration_payload config) c w
    (sendRegistration config c w).
Proof.
  destruct (sendRegistration_built config c w)
    as (p & q & msg & Hq & Hne & Hp & Hqf & Hwire & ->).
  rewrite <- Hwire. by apply send_and_free_outcome.
Qed.

(** [sendHeartbeat()] prints the heartbeat object: type HEARTBEAT, the
    device id and the payload with the two numbers, and no metadata. It
    throws what [sendMessage] throws, gives the heap back as it was on a
    normal return, and leaves its payload tree in the heap on a throw. *)
Theorem sendHeartbeat_outcome (uptime temperature : float) config c w :
  sender_outcome (heartbeat_object uptime temperature config)
    (heartbeat_payload uptime temperature) c w
    (sendHeartbeat uptime temperature config c w).
Proof.
  destruct (sendHeartbeat_built uptime temperature config c w)
    as (p & q & msg & Hq & Hne & Hp & Hqf & Hwire & ->).
  rewrite <- Hwire. by apply send_and_free_outcome.
Qed.

(** [handleSignalingMessage(msg)] writes to the transport for a REQUEST
    only. A REQUEST is answered, whatever its payload, with the response
    object: type RESPONSE, the device id, the payload with the status and
    the stream URL, and the id of the request under the metadata key
    [request_id]; the heap is given back on a normal return and keeps the
    payload tree on a throw. For every other type the handler returns
    normally, hands nothing to the transport, leaves the heap as it is and
    writes one line to the standard output. *)
Theorem handleSignalingMessage_answers_requests config c (msg : SignalingMessage) w :
  match type msg with
  | REQUEST =>
      sender_outcome (response_object config msg) (response_payload config) c w
        (handleSignalingMessage config c msg w)
  | _ =>
      (handleSignalingMessage config c msg w).1 = Ok tt ∧
      frames (handleSignalingMessage config c msg w).2 = frames w ∧
      heap (handleSignalingMessage config c msg w).2 = heap w ∧
      ∃ line, stdout (handleSignalingMessage config c msg w).2 = (stdout w ++ [line])%list
  end.
Proof.
  unfold handleSignalingMessage, getType.
  destruct (type msg);
    lazymatch goal with
    | |- sender_outcome _ _ _ _ _ => idtac
    | |- _ => repeat split; eauto
    end.
  destruct (handleStreamRequest_built config c msg w)
    as (p & q & rsp & Hq & Hne & Hp & Hqf & Hwire & ->).
  rewrite <- Hwire. by apply send_and_free_outcome.
Qed.

(** [initialize()] returns false exactly when [connect()] does, and then
    nothing was handed to the transport, the event loop was not started and
    one line went to the error stream. When [connect()] succeeds the event
    loop is marked running and the registration is sent on a client that
    is connected: the not-connected error cannot occur, the registration
    object is handed to the transport once when it can be printed, and a
    failure of the send leaves [initialize()] as the exception, never as
    the value false. *)
Theorem initialize_outcome config c w :
  ((initialize config c w).1.1 = Ok false ↔ (connect c w).1.1 = false) ∧
  ((connect c w).1.1 = false →
   initialize config c w
   = (Ok false, (connect c w).1.2,
      fprintf_stderr ("Failed to connect to signaling server" +:+ newline) (connect c w).2) ∧
   frames (initialize config c w).2 = frames w ∧
   heap (initialize config c w).2 = heap w ∧
   running (initialize config c w).1.2 = running c) ∧
  ((connect c w).1.1 = true →
   isConnected (initialize config c w).1.2 = true ∧
   running (initialize config c w).1.2 = true ∧
   (initialize config c w).1.1 ≠ Throw NotConnectedError ∧
   match cJSON_Print (registration_object config) with
   | Some text =>
       frames (initialize config c w).2 = (frames w ++ [text])%list ∧
       ((initialize config c w).1.1 = Ok true ∨
        (initialize config c w).1.1 = Throw SendIncompleteError)
   | None =>
       frames (initialize config c w).2 = frames w ∧
       (initialize config c w).1.1
       = Throw (runtime_error "Failed to convert JSON to string")
   end ∧
   ((initialize config c w).1.1 = Ok true → heap (initialize config c w).2 = heap w)).
Proof.
  unfold initialize.
  assert (Hconn : isConnected (connect c w).1.2 = (connect c w).1.1 ∧
                  frames (connect c w).2 = frames w ∧ heap (connect c w).2 = heap w ∧
                  running (connect c w).1.2 = running c).
  { unfold connect, isConnected. destruct (connected c) eqn:Hc; [done|].
    by destruct (lws_client_connect_via_info _ _) as [[conn|] n]. }
  destruct (connect c w) as [[[] c1] w1]; simpl in Hconn; destruct Hconn as (Hc1 & Hf & Hh & Hr).
  - assert (Hc2 : isConnected (startEventLoop c1) = true).
    { unfold startEventLoop. by destruct (running c1). }
    assert (Hr2 : running (startEventLoop c1) = true).
    { unfold startEventLoop. by destruct (running c1) eqn:E. }
    destruct (sendRegistration_built config (startEventLoop c1) w1)
      as (p & q & msg & Hq & Hne & Hp & Hqf & Hwire & ->).
    pose proof (send_and_free_outcome (startEventLoop c1) msg p q
                  (registration_payload config) w1 Hq Hne Hp Hqf) as Hs.
    rewrite Hwire in Hs. destruct Hs as (Hnc & Hsent & _ & Hok & _).
    specialize (Hsent Hc2). rewrite Hf in Hsent.
    destruct (send_and_free _ _ _ _) as [[[]|e] w2]; simpl in *; rewrite Hh in Hok.
    + split; [split; discriminate|]. split; [discriminate|]. intros _.
      split; [done|]. split; [done|]. split; [discriminate|].
      split; [|intros _; by apply Hok].
      destruct (cJSON_Print (registration_object config)) as [text|];
        destruct Hsent as [Hfr Hres]; [|discriminate Hres].
      split; [done|by left].
    + split; [split; discriminate|]. split; [discriminate|]. intros _.
      split; [done|]. split; [done|]. split; [|split; [|discriminate]].
      * intros [= ->]. destruct Hnc as [Hnc _]. specialize (Hnc eq_refl). congruence.
      * destruct (cJSON_Print (registration_object config)) as [text|];
          destruct Hsent as [Hfr Hres]; (split; [done|]).
        -- destruct Hres as [Hx|Hx]; [discriminate|]. right. by injection Hx as ->.
        -- by injection Hres as ->.
  - split; [done|]. split; [|discriminate]. intros _. simpl.
    by rewrite Hf, Hh, Hr.
Qed.

End DeviceManagerProperties.

(** ** The configuration file *)

(** [loadFromFile] throws exactly when the file cannot be opened or its
    bytes are not JSON for the library. Otherwise it succeeds, and the only
    field it reads is the device id: the MAC address, the serial number and
    the stream URL of the configuration are empty whatever the file holds,
    so a registration built from it carries an empty [mac_address] and
    [csn] and a response an empty [stream_url]. The device id is the string
    under ["device_id"] when there is one, and otherwise the generated
    id, also for a root that is not an object. *)
Theorem loadFromFile_reads_device_id_only `{cJSON_library}
    (files : string → option string) (generated : string) (port : Z) (configPath : string) :
  (throws (loadFromFile files generated port configPath) ↔
   files (c_str configPath) = None ∨
   ∃ buffer, files (c_str configPath) = Some buffer ∧ cJSON_Parse (c_str buffer) = None) ∧
  (∀ config, loadFromFile files generated port configPath = Ok config →
     macAddress config = "" ∧ cloudSerialNumber config = "" ∧ rtspUrl config = "" ∧
     registration_payload config
     = cJSON_Object [("device_type", cJSON_String "camera");
                     ("mac_address", cJSON_String ""); ("csn", cJSON_String "")] ∧
     response_payload config
     = cJSON_Object [("status", cJSON_String "available");
                     ("stream_url", cJSON_String "")] ∧
     ∃ buffer root,
       files (c_str configPath) = Some buffer ∧ cJSON_Parse (c_str buffer) = Some root ∧
       (has_string_field root "device_id" →
        cJSON_GetObjectItemCaseSensitive root "device_id"
        = Some (cJSON_String (deviceId config))) ∧
       (cJSON_GetObjectItemCaseSensitive root "device_id" = None →
        deviceId config = generated) ∧
       ((∀ members, root ≠ cJSON_Object members) → deviceId config = generated)).
Proof.
  unfold loadFromFile, throws.
  destruct (files (c_str configPath)) as [buffer|]; [|split; [split; eauto|done]].
  destruct (cJSON_Parse (c_str buffer)) as [root|] eqn:Hparse.
  - split.
    + split; [by intros [e ?]|]. intros [|(b & [= <-] & Hb)]; [done|]. congruence.
    + intros config [= <-]. simpl. unfold registration_payload, response_payload. simpl.
      do 5 (split; [done|]). exists buffer, root.
      split; [done|]. split; [done|]. split; [|split].
      * by intros [s ->].
      * by intros ->.
      * intros Hroot. destruct root; try done. by destruct (Hroot members).
  - split; [|done]. split; [|eauto]. intros _. right. eauto.
Qed.

(** ** Trees left by the dispatch *)

Section DispatchHeap.
Context `{JSON : cJSON_library} `{WS : libwebsockets} {App : Type}.
Implicit Types (c : SignalingClient App) (w : world App).

(** Without a handler, an inbound frame that decodes leaves trees behind
    according to the ["payload"] field of the tree it was parsed to. When
    the field is there, the heap after the dispatch is the heap before it
    with two trees more, both equal to the field, at two new locations:
    the payload of the copy that was queued, and the tree [deserialize]
    leaves behind, which nothing refers to. When the field is not there,
    the queued copy has no payload and the heap is as it was. *)
Theorem dispatch_grows_heap c data w (message : SignalingMessage) (h1 : gmap loc cJSON) :
  messageCallback c = None →
  deserialize data (heap w) = (Ok message, h1) →
  ∃ root copy,
    cJSON_Parse (c_str data) = Some root ∧
    incomingMessages (processIncomingMessage c data w).1.2 = (incomingMessages c ++ [copy])%list ∧
    match cJSON_GetObjectItemCaseSensitive root "payload" with
    | Some payloadJson =>
        ∃ q tmp,
          payload copy = Some q ∧ tmp ≠ q ∧ heap w !! q = None ∧ heap w !! tmp = None ∧
          heap (processIncomingMessage c data w).2
          = <[q := payloadJson]> (<[tmp := payloadJson]> (heap w)) ∧
          size (heap (processIncomingMessage c data w).2) = S (S (size (heap w)))
    | None =>
        payload copy = None ∧ heap (processIncomingMessage c data w).2 = heap w
    end.
Proof.
  intros Hcb Hd. unfold processIncomingMessage. rewrite Hd, Hcb.
  revert Hd. unfold deserialize.
  destruct (cJSON_Parse (c_str data)) as [root|]; [|done].
  intros (_ & _ & _ & Hp)%deserialize_root_ok_inv.
  destruct (SignalingMessage_copy message h1) as [copy h2] eqn:Hcopy.
  exists root, copy. split; [done|]. split; [done|].
  revert Hcopy. unfold SignalingMessage_copy, SignalingMessage_destroy, cJSON_Delete.
  destruct (cJSON_GetObjectItemCaseSensitive root "payload") as [payloadJson|].
  - destruct Hp as (tmp & q1 & Htmp & Hq1 & Hne & -> & ->).
    destruct (cJSON_Duplicate_live q1 payloadJson
                (<[q1 := payloadJson]> (<[tmp := payloadJson]> (heap w))))
      as (q2 & -> & Hq2 & Hne2); [apply lookup_insert_eq|].
    intros [= <- <-]. simpl.
    rewrite lookup_insert_ne in Hq2 by done.
    assert (Hne3 : tmp ≠ q2) by (intros ->; by rewrite lookup_insert_eq in Hq2).
    rewrite lookup_insert_ne in Hq2 by done.
    exists q2, tmp. split; [done|]. split; [done|]. split; [done|]. split; [done|].
    assert (Hheap : delete q1 (<[q2 := payloadJson]>
                                 (<[q1 := payloadJson]> (<[tmp := payloadJson]> (heap w))))
                    = <[q2 := payloadJson]> (<[tmp := payloadJson]> (heap w))).
    { rewrite delete_insert_ne by done. f_equal.
      apply delete_insert_id. by rewrite lookup_insert_ne. }
    rewrite Hheap. split; [done|].
    rewrite !map_size_insert_None; [done|done|by rewrite lookup_insert_ne].
  - destruct Hp as [-> ->]. by intros [= <- <-].
Qed.

End DispatchHeap.

(** ** The further properties on concrete inputs *)

Lemma decoded_metadata_last_string_witness :
  ∃ m h',
    deserialize (H := RefJSON.library) log_frame ∅ = (Ok m, h') ∧
    metadata m !! "a" = Some "3" ∧ metadata m !! "b" = None.
Proof.
  destruct (deserialize (H := RefJSON.library) log_frame ∅) as [[m|e] h'] eqn:Hd;
    [|vm_compute in Hd; discriminate].
  assert (Hparse : cJSON_Parse (cJSON_library := RefJSON.library) (c_str log_frame) = Some _)
    by (vm_compute; reflexivity).
  exists m, h'. split; [reflexivity|].
  split;
    rewrite (decoded_metadata_last_string (H := RefJSON.library) log_frame ∅ h' m _ _
               Hd Hparse);
    reflexivity.
Defined.

Lemma deserialize_leaves_a_tree_witness :
  ∃ m h' q tmp,
    deserialize (H := RefJSON.library) offer_frame camera_heap = (Ok m, h') ∧
    payload m = Some q ∧ tmp ≠ q ∧ camera_heap !! q = None ∧ camera_heap !! tmp = None ∧
    h' = <[q := cJSON_Object [("sdp", cJSON_String "v=0")]]>
           (<[tmp := cJSON_Object [("sdp", cJSON_String "v=0")]]> camera_heap) ∧
    SignalingMessage_destroy m h'
    = <[tmp := cJSON_Object [("sdp", cJSON_String "v=0")]]> camera_heap ∧
    size (SignalingMessage_destroy m h') = S (size camera_heap).
Proof.
  destruct (deserialize (H := RefJSON.library) offer_frame camera_heap)
    as [[m|e] h'] eqn:Hd; [|vm_compute in Hd; discriminate].
  destruct (deserialize_leaves_a_tree (H := RefJSON.library) offer_frame camera_heap h' m Hd)
    as (root & Hroot & Hcase).
  vm_compute in Hroot. injection Hroot as <-.
  destruct Hcase as (q & tmp & Hcase). by exists m, h', q, tmp.
Defined.

Lemma owns_payload_register_dev42 : owns_payload camera_heap register_dev42.
Proof. intros p [= <-]. vm_compute. eauto. Qed.


Lemma deserialize_serialize_up_to_NUL_witness :
  ∃ text m' h',
    serialize (H := RefJSON.library) ∅ heartbeat_NUL = Ok text ∧
    deserialize (H := RefJSON.library) text ∅ = (Ok m', h') ∧
    type m' = HEARTBEAT ∧ id m' = "a" ∧
    payload_tree h' m' = payload_tree ∅ heartbeat_NUL ∧
    (∀ k' v', metadata m' !! k' = Some v' →
              ∃ k v, metadata heartbeat_NUL !! k = Some v ∧ k' = c_str k ∧ v' = c_str v) ∧
    (metadata heartbeat_NUL = ∅ → metadata m' = ∅).
Proof.
  eexists.
  assert (Hs : serialize (H := RefJSON.library) ∅ heartbeat_NUL = Ok _)
    by (vm_compute; reflexivity).
  destruct (deserialize_serialize_up_to_NUL (H := RefJSON.library) ∅ heartbeat_NUL _ Hs)
    as (m' & h' & Hd & Hrest).
  - vm_compute. reflexivity.
  - exists m', h'. split; [exact Hs|]. split; [exact Hd | exact Hrest].
Defined.

Lemma validate_same_message_witness :
  validate {[ 7%positive := camera ]}
    {| type := REGISTER; id := "dev-42"; payload := Some 7%positive;
       metadata := metadata register_dev42 |}
  = validate camera_heap register_dev42 ∧
  validate (SignalingMessage_copy register_dev42 camera_heap).2
    (SignalingMessage_copy register_dev42 camera_heap).1
  = validate camera_heap register_dev42.
Proof.
  apply (validate_same_message camera_heap {[ 7%positive := camera ]} register_dev42
           {| type := REGISTER; id := "dev-42"; payload := Some 7%positive;
              metadata := metadata register_dev42 |}).
  - exact owns_payload_register_dev42.
  - intros p [= <-]. vm_compute. eauto.
  - repeat split.
Defined.

Lemma queue_is_fifo_witness :
  ∃ c' w',
    receive_frames (H := RefJSON.library) new_client
      [log_frame; "not json"; offer_frame] camera_world
    = (Ok tt, c', w') ∧
    messageCallback c' = None ∧
    message_view (heap w') <$> incomingMessages c'
    = ((message_view (heap camera_world) <$> incomingMessages new_client)
       ++ omap (decoded_view (H := RefJSON.library))
            [log_frame; "not json"; offer_frame])%list ∧
    Forall (owns_payload (heap w')) (incomingMessages c').
Proof.
  apply (queue_is_fifo (JSON := RefJSON.library) new_client
           [log_frame; "not json"; offer_frame] camera_world).
  - reflexivity.
  - constructor.
Defined.

Lemma handler_exception_is_logged_witness :
  ∃ message h1,
    deserialize (H := RefJSON.library) log_frame (heap camera_world) = (Ok message, h1) ∧
    processIncomingMessage (JSON := RefJSON.library)
      (setMessageCallback (Some throwing_handler) new_client) log_frame camera_world
    = (Ok tt, setMessageCallback (Some throwing_handler) new_client,
       fprintf_stderr ("Message deserialization error: " +:+ "handler failed" +:+ newline)
         (with_app [] (with_heap (SignalingMessage_destroy message h1) camera_world))).
Proof.
  destruct (deserialize (H := RefJSON.library) log_frame (heap camera_world))
    as [[message|e] h1] eqn:Hd; [|vm_compute in Hd; discriminate].
  exists message, h1. split; [reflexivity|].
  apply (handler_exception_is_logged (JSON := RefJSON.library)
           (setMessageCallback (Some throwing_handler) new_client) log_frame camera_world
           throwing_handler message h1 (runtime_error "handler failed") []);
    [reflexivity | exact Hd | reflexivity | reflexivity].
Defined.

Lemma dispatch_grows_heap_witness :
  ∃ copy q tmp,
    incomingMessages
      (processIncomingMessage (JSON := RefJSON.library) new_client offer_frame
         camera_world).1.2
    = [copy] ∧
    payload copy = Some q ∧ tmp ≠ q ∧ heap camera_world !! q = None ∧
    heap camera_world !! tmp = None ∧
    heap (processIncomingMessage (JSON := RefJSON.library) new_client offer_frame
            camera_world).2
    = <[q := cJSON_Object [("sdp", cJSON_String "v=0")]]>
        (<[tmp := cJSON_Object [("sdp", cJSON_String "v=0")]]> (heap camera_world)) ∧
    size (heap (processIncomingMessage (JSON := RefJSON.library) new_client offer_frame
                  camera_world).2)
    = S (S (size (heap camera_world))).
Proof.
  destruct (deserialize (H := RefJSON.library) offer_frame (heap camera_world))
    as [[message|e] h1] eqn:Hd; [|vm_compute in Hd; discriminate].
  destruct (dispatch_grows_heap (JSON := RefJSON.library) new_client offer_frame
              camera_world message h1 eq_refl Hd)
    as (root & copy & Hroot & Hqueue & Hcase).
  vm_compute in Hroot. injection Hroot as <-.
  destruct Hcase as (q & tmp & Hcase). by exists copy, q, tmp.
Defined.


Lemma handler_sees_frames_in_order_witness :
  ∃ w',
    receive_frames (H := RefJSON.library)
      (setMessageCallback (Some noting_ids) new_client)
      [log_frame; "not json"; offer_frame] camera_world
    = (Ok tt, setMessageCallback (Some noting_ids) new_client, w') ∧
    app w'
    = foldl (λ (a : list string) v, (a ++ [v.1.1.2])%list) (app camera_world)
        (omap (decoded_view (H := RefJSON.library)) [log_frame; "not json"; offer_frame]).
Proof.
  apply (handler_sees_frames_in_order (JSON := RefJSON.library)
           (setMessageCallback (Some noting_ids) new_client)
           (λ v (a : list string), (a ++ [v.1.1.2])%list)
           [log_frame; "not json"; offer_frame] camera_world).
  reflexivity.
Defined.
